(** * nlp_pipeline: section detection and snippet extraction

    A shallow embedding of [src/nlp_pipeline.py] (classes
    [UniversalSectionDetector] and [UniversalTextProcessor]) together with the
    properties stated about it.

    Text.  A Python [str] is a [list ascii].  The embedding covers ASCII text:
    an [ascii] below 128 stands for the code point of the same number, and the
    character tables below treat the values from 128 up as caseless symbols
    that are neither letters nor white space.  The two bullet glyphs of the
    source (U+2022 and U+25CF) are kept as their UTF-8 byte sequences, so no
    ASCII text is equal to one of them, as in Python.

    The language model.  The module-level [nlp] of the source is either
    [None] or a loaded spaCy pipeline; it is an [option Oracle] here, and
    every function that consults the global takes it as its first argument.

    Embedded: [detect_sections], [_is_heading], [_is_usable_title],
    [_classify_section_type], [clean_text] and [extract_refined_snippet].
    The orchestrator [split_documents_into_sections] and the tokenizer
    [spacy_tokenize] take no part in the properties below and are left out. *)

From Stdlib Require Import Ascii String.
From Stdlib Require Import List Bool Arith ZArith QArith Lia.
From Stdlib Require Import Permutation Sorted.
Import ListNotations.
Close Scope Q_scope.
Open Scope string_scope.
Open Scope nat_scope.
Open Scope list_scope.

Set Implicit Arguments.

(** ** Python strings *)

Module Py.

Definition str := list ascii.

Definition lit (s : string) : str := list_ascii_of_string s.
Coercion lit : string >-> str.

Definition code (c : ascii) : nat := nat_of_ascii c.

Definition in_range (lo hi : nat) (c : ascii) : bool :=
  (lo <=? code c) && (code c <=? hi).

(** [str.isspace] on one character: TAB..CR, FS..US and the space. *)
Definition isspace (c : ascii) : bool :=
  in_range 9 13 c || in_range 28 32 c.

Definition is_upper (c : ascii) : bool := in_range 65 90 c.
Definition is_lower (c : ascii) : bool := in_range 97 122 c.
Definition is_digit (c : ascii) : bool := in_range 48 57 c.
Definition isalpha (c : ascii) : bool := is_upper c || is_lower c.

Definition lower_char (c : ascii) : ascii :=
  if is_upper c then ascii_of_nat (code c + 32) else c.
Definition upper_char (c : ascii) : ascii :=
  if is_lower c then ascii_of_nat (code c - 32) else c.

(** [string.punctuation] *)
Definition punctuation : str :=
  lit "!" ++ [ascii_of_nat 34] ++ lit "#$%&'()*+,-./:;<=>?@[\]^_`{|}~".

Definition eqb_str (a b : str) : bool :=
  if list_eq_dec ascii_dec a b then true else false.

Definition mem_char (c : ascii) (s : str) : bool :=
  existsb (Ascii.eqb c) s.

(** [x in {...}] for a set of strings *)
Definition mem_str (x : str) (set : list str) : bool :=
  existsb (eqb_str x) set.

(** [s.lower()] *)
Definition lower (s : str) : str := map lower_char s.

Fixpoint dropwhile (p : ascii -> bool) (s : str) : str :=
  match s with
  | [] => []
  | c :: s' => if p c then dropwhile p s' else s
  end.

Definition lstrip (s : str) : str := dropwhile isspace s.
Definition rstrip (s : str) : str := rev (dropwhile isspace (rev s)).
(** [s.strip()] *)
Definition strip (s : str) : str := rstrip (lstrip s).

(** Split at every character satisfying [p]; the pieces may be empty and
    there is always at least one piece, as with [s.split(sep)] and
    [re.split] on a one-character class (so the first branch of the inner
    [match] is never taken). *)
Fixpoint split_on (p : ascii -> bool) (s : str) : list str :=
  match s with
  | [] => [[]]
  | c :: s' =>
      match split_on p s' with
      | [] => [[]]
      | w :: ws => if p c then [] :: w :: ws else (c :: w) :: ws
      end
  end.

Definition newline : ascii := ascii_of_nat 10.

(** [s.split('\n')] *)
Definition split_lines (s : str) : list str := split_on (Ascii.eqb newline) s.

(** [s.split()]: maximal runs of characters that are not white space. *)
Definition split_ws (s : str) : list str :=
  filter (fun w => negb (Nat.eqb (length w) 0)) (split_on isspace s).

Fixpoint startswith (s p : str) : bool :=
  match p, s with
  | [], _ => true
  | _ :: _, [] => false
  | a :: p', b :: s' => Ascii.eqb a b && startswith s' p'
  end.

(** [s.endswith(p)] *)
Definition endswith (s p : str) : bool := startswith (rev s) (rev p).

(** [k in s] for strings: [k] occurs as a contiguous substring of [s]. *)
Fixpoint contains (k s : str) : bool :=
  startswith s k ||
  match s with
  | [] => false
  | _ :: s' => contains k s'
  end.

(** [sep.join(parts)] *)
Fixpoint join (sep : str) (parts : list str) : str :=
  match parts with
  | [] => []
  | [p] => p
  | p :: rest => p ++ sep ++ join sep rest
  end.

(** [s[:k]] for a Python integer [k]: a negative [k] counts from the end. *)
Definition slice_to (s : str) (k : Z) : str :=
  if (0 <=? k)%Z then firstn (Z.to_nat k) s
  else firstn (Z.to_nat (Z.of_nat (length s) + k)) s.

(** [xs[a:b]] for indices that are not negative *)
Definition slice {A} (xs : list A) (a b : nat) : list A :=
  firstn (b - a) (skipn a xs).

(** [s.title()]: a cased character is upper-cased when the one before it is
    not cased, and lower-cased otherwise. *)
Fixpoint title_from (prev_cased : bool) (s : str) : str :=
  match s with
  | [] => []
  | c :: s' =>
      (if prev_cased then lower_char c else upper_char c)
        :: title_from (isalpha c) s'
  end.
Definition title (s : str) : str := title_from false s.

(** Whether the first or the last character of [s] is white space. *)
Definition edge_space (s : str) : bool :=
  existsb isspace (firstn 1 s) || existsb isspace (firstn 1 (rev s)).

(** No white space other than single spaces between the characters of [s];
    [prev_space] says that the character before is a space. *)
Fixpoint single_spaced (prev_space : bool) (s : str) : bool :=
  match s with
  | [] => true
  | c :: rest =>
      if isspace c
      then Ascii.eqb c " " && negb prev_space && single_spaced true rest
      else single_spaced false rest
  end.

(** A character that [lower] and the deletion of punctuation leave alone. *)
Definition plain_char (c : ascii) : bool :=
  Ascii.eqb (lower_char c) c && negb (mem_char c punctuation).

(** [len(s)] as a Python integer *)
Definition zlen (s : str) : Z := Z.of_nat (length s).

(** Truth value of a string or list *)
Definition nonempty {A} (l : list A) : bool :=
  match l with [] => false | _ => true end.

(** [max(xs, key=len)]: the first element of greatest length. *)
Fixpoint max_by_len (best : str) (xs : list str) : str :=
  match xs with
  | [] => best
  | x :: xs' =>
      if length best <? length x then max_by_len x xs' else max_by_len best xs'
  end.

End Py.

Import Py.

(** ** Regular expressions

    The four [HEADER_PATTERNS] use only character classes, literals,
    concatenation, alternation, [*], [+] and bounded repetition of a class, so
    whether [pat.match(s)] succeeds is decided by the language of the
    pattern; it is computed here with derivatives. *)

Module Re.

Inductive regex : Type :=
| Void
| Eps
| Cls (p : ascii -> bool)
| Seq (a b : regex)
| Alt (a b : regex)
| Star (a : regex)
| Rep (p : ascii -> bool) (lo hi : nat).   (* [[p]{lo,hi}] *)

Definition Chr (c : ascii) : regex := Cls (Ascii.eqb c).
Definition Lit (s : str) : regex := fold_right (fun c r => Seq (Chr c) r) Eps s.
Definition Plus (a : regex) : regex := Seq a (Star a).

Fixpoint nullable (r : regex) : bool :=
  match r with
  | Void => false
  | Eps => true
  | Cls _ => false
  | Seq a b => nullable a && nullable b
  | Alt a b => nullable a || nullable b
  | Star _ => true
  | Rep _ lo _ => Nat.eqb lo 0
  end.

Definition seq (a b : regex) : regex :=
  match a with Void => Void | Eps => b | _ => Seq a b end.
Definition alt (a b : regex) : regex :=
  match a, b with Void, _ => b | _, Void => a | _, _ => Alt a b end.

Fixpoint deriv (c : ascii) (r : regex) : regex :=
  match r with
  | Void | Eps => Void
  | Cls p => if p c then Eps else Void
  | Seq a b =>
      alt (seq (deriv c a) b) (if nullable a then deriv c b else Void)
  | Alt a b => alt (deriv c a) (deriv c b)
  | Star a => seq (deriv c a) (Star a)
  | Rep p lo hi =>
      match hi with
      | 0 => Void
      | S hi' => if p c then Rep p (lo - 1) hi' else Void
      end
  end.

(** The whole of [s] is in the language of [r]. *)
Fixpoint fullmatch (r : regex) (s : str) : bool :=
  match s with
  | [] => nullable r
  | c :: s' => fullmatch (deriv c r) s'
  end.

(** Some prefix of [s] is in the language of [r]. *)
Fixpoint prefixmatch (r : regex) (s : str) : bool :=
  nullable r ||
  match s with
  | [] => false
  | c :: s' => prefixmatch (deriv c r) s'
  end.

(** A compiled pattern [^body] or [^body$].  Without [re.MULTILINE] a final
    [$] holds at the end of the string and just before a newline that ends
    the string. *)
Record pattern := { body : regex; dollar : bool }.

(** [pat.match(s)] as a truth value *)
Definition re_match (pat : pattern) (s : str) : bool :=
  if dollar pat then fullmatch (Seq (body pat) (Alt Eps (Chr newline))) s
  else prefixmatch (body pat) s.

End Re.

Import Re.

(** ** The language model

    What the source reads from spaCy: the tokens of a document with their
    part of speech, its noun chunks with their text and root token, and the
    similarity of two documents.  The similarity is a float in the source
    and a rational here: only its order is used. *)

Record Token := { pos_ : string }.
Record Span := { text : str; root : Token }.
Record Doc := { tokens : list Token; noun_chunks : list Span }.
Record Oracle := { run : str -> Doc; similarity : Doc -> Doc -> Q }.

(** ** UniversalSectionDetector *)

(** U+2022 and U+25CF *)
Definition BULLET : str := map ascii_of_nat [226; 128; 162].
Definition BLACK_CIRCLE : str := map ascii_of_nat [226; 151; 143].

Definition dot : ascii := "."%char.
Definition any_but_newline (c : ascii) : bool := negb (Ascii.eqb c newline).

Definition HEADER_PATTERNS : list pattern :=
  [ (* ^[A-Z][^\.\n]{10,100}$ *)
    {| body := Seq (Cls is_upper)
                 (Rep (fun c => negb (Ascii.eqb c dot || Ascii.eqb c newline))
                      10 100);
       dollar := true |};
    (* ^(?:[A-Z][a-z0-9 \-&\(\),:]{8,120})$ *)
    {| body := Seq (Cls is_upper)
                 (Rep (fun c => is_lower c || is_digit c || mem_char c " -&(),:")
                      8 120);
       dollar := true |};
    (* ^([A-Z][a-z]+(?: [A-Z][a-z]+)+)$ *)
    {| body := let word := Seq (Cls is_upper) (Plus (Cls is_lower)) in
               Seq word (Plus (Seq (Chr " ") word));
       dollar := true |};
    (* ^(?:[A-Za-z].*Guide|Checklist|Tips|Things to Do) *)
    {| body := Alt (Seq (Cls isalpha)
                      (Seq (Star (Cls any_but_newline)) (Lit "Guide")))
                (Alt (Lit "Checklist") (Alt (Lit "Tips") (Lit "Things to Do")));
       dollar := false |} ].

Definition FOCUS_KEYWORDS : list str :=
  [ lit "guide"; lit "how to"; lit "create"; lit "convert"; lit "edit";
    lit "checklist"; lit "tips"; lit "tricks"; lit "introduction";
    lit "overview"; lit "summary"; lit "activity"; lit "activities";
    lit "culinary"; lit "nightlife"; lit "entertainment"; lit "forms";
    lit "sign" ].

Definition _is_heading (line : str) : bool :=
  if negb (nonempty line) then false else
  let lclean := strip line in
  if mem_str (lower lclean)
       [lit "untitled section"; lit "section"; lit "heading"; lit "index"]
  then false else
  if mem_str lclean [BULLET; BLACK_CIRCLE; lit "-"; lit "*"; lit "."]
  then false else
  if endswith lclean "." then false else
  if length lclean <? 10 then false else
  if existsb (fun pat => re_match pat lclean) HEADER_PATTERNS then true else
  if existsb (fun k => contains k (firstn 50 (lower lclean))) FOCUS_KEYWORDS
  then true else
  false.

(** [t[0].islower()] is reached only when [t] has two words, so [t[0]]
    exists; [firstn 1 t] is that character. *)
Definition _is_usable_title (title : str) : bool :=
  if negb (nonempty title) || (length title <? 10) then false else
  let t := strip title in
  if eqb_str (lower t) "untitled section" then false else
  if existsb (endswith t) [lit "."; lit "*"; lit ":"; lit ";"] then false else
  if mem_str t [BULLET; BLACK_CIRCLE; lit "-"; lit "*"] then false else
  if negb (existsb isalpha t) then false else
  if mem_str (lower t) [lit "section"; lit "heading"] then false else
  let words := split_ws t in
  if length words <? 2 then false else
  if existsb is_lower (firstn 1 t) then false else
  true.

(** The test of the first loop of [detect_sections] on one line: the rule
    based test, and otherwise, with a language model, the noun phrase test. *)
Definition heading_line (nlp : option Oracle) (line : str) : bool :=
  if _is_heading line then true
  else match nlp with
       | Some o =>
           let doc := run o line in
           (10 <? length line) && negb (endswith line ".")
           && existsb (fun chunk => String.eqb (pos_ (root chunk)) "NOUN")
                      (noun_chunks doc)
           && negb (existsb (fun t => String.eqb (pos_ t) "VERB") (tokens doc))
       | None => false
       end.

(** [for i, line in enumerate(lines)], counting from [i]. *)
Fixpoint heading_scan (nlp : option Oracle) (i : nat) (lines : list str)
  : list nat :=
  match lines with
  | [] => []
  | line :: rest =>
      if heading_line nlp line then i :: heading_scan nlp (S i) rest
      else heading_scan nlp (S i) rest
  end.

Fixpoint insert_uniq (x : nat) (l : list nat) : list nat :=
  match l with
  | [] => [x]
  | y :: l' =>
      if x <? y then x :: l
      else if x =? y then l
      else y :: insert_uniq x l'
  end.

(** [sorted(set(xs))] *)
Definition sorted_set (xs : list nat) : list nat :=
  fold_right insert_uniq [] xs.

(** The second loop: one candidate section per heading index, from the line
    after the heading up to the next heading index, or to [n] after the last. *)
Fixpoint collect_sections (lines : list str) (n : nat) (heading_idxs : list nat)
  : list (str * str) :=
  match heading_idxs with
  | [] => []
  | hidx :: later =>
      let hend := match later with hnext :: _ => hnext | [] => n end in
      let title := strip (nth hidx lines []) in
      if negb (_is_usable_title title) then collect_sections lines n later else
      let content :=
        strip (join [newline]
                 (filter (fun l => nonempty (strip l))
                         (slice lines (hidx + 1) hend))) in
      if length content <? 30 then collect_sections lines n later else
      (title, content) :: collect_sections lines n later
  end.

Definition page_lines (page_text : str) : list str :=
  map strip (split_lines page_text).

(** Lines 25 to 46: the sections found from the heading candidates. *)
Definition primary_sections (nlp : option Oracle) (page_text : str)
  : list (str * str) :=
  let lines := page_lines page_text in
  let n := length lines in
  let heading_idxs := sorted_set (heading_scan nlp 0 lines) in
  collect_sections lines n heading_idxs.

(** Line 48; [l[0]] is read only when [len(l) >= 10]. *)
Definition lines_non_bullet (lines : list str) : list str :=
  filter (fun l => (10 <=? length l)
                   && negb (mem_str l [BULLET; BLACK_CIRCLE; lit "-"; lit "*"])
                   && existsb is_upper (firstn 1 l)
                   && contains " " l)
         lines.

(** [max(xs, key=len)] of a list that is not empty *)
Definition best_title (xs : list str) : str :=
  match xs with
  | [] => []
  | x :: xs' => max_by_len x xs'
  end.

(** The noun chunk titles of the second fallback, and the first usable one. *)
Definition chunk_titles (o : Oracle) (page_text : str) : list str :=
  map (fun chunk => title (strip (text chunk)))
      (filter (fun chunk => 12 <? length (strip (text chunk)))
              (noun_chunks (run o page_text))).

(** Lines 47 to 59: what the fallback adds when [sections] is empty. *)
Definition fallback_sections (o : Oracle) (lines : list str) (page_text : str)
  : list (str * str) :=
  let candidates := lines_non_bullet lines in
  if nonempty candidates then
    let best := best_title candidates in
    if _is_usable_title best then [(best, strip page_text)] else []
  else
    match find _is_usable_title (chunk_titles o page_text) with
    | Some probable => [(probable, strip page_text)]
    | None => []
    end.

(** Line 47, [if not sections and nlp and page_text.strip()], is the
    [match] on [nlp] with the other two tests inside. *)
Definition detect_sections (nlp : option Oracle) (page_text : str)
  : list (str * str) :=
  let lines := page_lines page_text in
  let sections := primary_sections nlp page_text in
  let sections :=
    match nlp with
    | Some o =>
        if negb (nonempty sections) && nonempty (strip page_text)
        then fallback_sections o lines page_text
        else sections
    | None => sections
    end in
  if negb (nonempty sections) && (30 <=? length (strip page_text)) then []
  else sections.

(** ** UniversalTextProcessor *)

(** [(title or "")] is [title] for a string. *)
Definition _classify_section_type (title content : str) : str :=
  let t := lower title in
  if contains "guide" t then "guide" else
  if contains "convert" t || contains "export" t then "conversion" else
  if contains "sign" t || contains "signature" t then "signatures" else
  if contains "checklist" t then "checklist" else
  if contains "activity" t || contains "things to do" t then "activity" else
  if contains "packing" t then "tips" else
  if contains "tips" t || contains "trick" t then "tips" else
  if contains "nightlife" t || contains "entertainment" t then "entertainment"
  else "content".

(** [re.sub(r'\s+', ' ', text)]; [in_run] says that the character before
    belongs to a run of white space that was already replaced. *)
Fixpoint sub_ws (in_run : bool) (text : str) : str :=
  match text with
  | [] => []
  | c :: rest =>
      if isspace c then
        if in_run then sub_ws true rest else " "%char :: sub_ws true rest
      else c :: sub_ws false rest
  end.

(** [text.translate(str.maketrans('', '', string.punctuation))] *)
Definition delete_punctuation (text : str) : str :=
  filter (fun c => negb (mem_char c punctuation)) text.

Definition clean_text (text : str) : str :=
  let text := lower text in
  let text := delete_punctuation text in
  strip (sub_ws false text).

(** [sorted(xs, key=key, reverse=True)]: descending and stable, elements of
    equal key stay in the order of [xs]. *)
Section SortedDesc.
Variables (A K : Type) (ltb : K -> K -> bool) (key : A -> K).

Fixpoint insert_desc (x : A) (l : list A) : list A :=
  match l with
  | [] => [x]
  | y :: l' => if ltb (key x) (key y) then y :: insert_desc x l' else x :: l
  end.

Fixpoint sorted_desc (xs : list A) : list A :=
  match xs with
  | [] => []
  | x :: xs' => insert_desc x (sorted_desc xs')
  end.
End SortedDesc.

Definition str_eq_dec : forall a b : str, {a = b} + {a <> b} :=
  list_eq_dec ascii_dec.

(** [set(s.lower().split())] as a list without repetition *)
Definition word_set (s : str) : list str :=
  nodup str_eq_dec (split_ws (lower s)).

(** [len(set(s.lower().split()) & qwords)] *)
Definition overlap (qwords : list str) (s : str) : nat :=
  length (filter (fun w => mem_str w qwords) (word_set s)).

Definition Qltb (a b : Q) : bool := negb (Qle_bool b a).

(** [[s.strip() for s in re.split('[\.\n]', section_text)
      if len(s.strip()) > 10]] *)
Definition candidate_sentences (section_text : str) : list str :=
  map strip
    (filter (fun s => 10 <? length (strip s))
       (split_on (fun c => Ascii.eqb c dot || Ascii.eqb c newline)
                 section_text)).

(** Lines 148 to 159 *)
Definition rank (nlp : option Oracle) (persona query_vector : str)
    (sentences : list str) : list str :=
  match nlp with
  | Some o =>
      let query_doc := run o (strip (persona ++ lit " " ++ query_vector)) in
      sorted_desc Qltb (fun s => similarity o query_doc (run o s)) sentences
  | None =>
      let qwords := word_set query_vector in
      sorted_desc Nat.ltb (overlap qwords) sentences
  end.

(** Lines 161 to 165: the loop that fills [result], started from [result]. *)
Fixpoint assemble (max_length : Z) (result : str) (ranked : list str) : str :=
  match ranked with
  | [] => result
  | sent :: rest =>
      if (Z.of_nat (length result) + Z.of_nat (length sent) + 2 <=? max_length)%Z
      then assemble max_length (result ++ sent ++ lit ". ") rest
      else result
  end.

(** Lines 166 to 170 *)
Definition annotate (persona result : str) : str :=
  if nonempty persona && nonempty result then
    let result :=
      if contains "HR" persona then lit "For HR professionals: " ++ result
      else result in
    if contains "Travel" persona then lit "Travel planner note: " ++ result
    else result
  else result.

(** The value of [result] when the loop of lines 161 to 165 ends. *)
Definition snippet_buffer (nlp : option Oracle)
    (section_text query_vector persona : str) (max_length : Z) : str :=
  assemble max_length []
    (rank nlp persona query_vector (candidate_sentences section_text)).

Definition extract_refined_snippet (nlp : option Oracle)
    (section_text query_vector persona : str) (max_length : Z) : str :=
  if negb (nonempty (strip section_text)) then [] else
  let sentences := candidate_sentences section_text in
  if negb (nonempty sentences) then slice_to section_text max_length else
  let result := snippet_buffer nlp section_text query_vector persona max_length in
  let result := annotate persona result in
  if nonempty result then strip result
  else slice_to (nth 0 sentences []) max_length.

(** ** The tokenizer

    [spacy_tokenize] reads four more attributes of a spaCy token: its text
    (for [len(token)]), its lemma and the flags [is_stop] and [is_alpha].  A
    loaded pipeline is the [Oracle] above together with these. *)

Record Lexeme := {
  lex_text : str;
  lemma_ : str;
  is_stop : bool;
  is_alpha : bool
}.

Record Pipeline := { oracle : Oracle; lexemes : str -> list Lexeme }.

Definition spacy_tokenize (nlp : option Pipeline) (text : str) : list str :=
  match nlp with
  | None => filter (fun w => 2 <? length w) (split_ws (clean_text text))
  | Some p =>
      map lemma_
        (filter (fun token => negb (is_stop token) && is_alpha token
                              && (2 <? length (lex_text token)))
                (lexemes p text))
  end.

Definition preprocess_for_vector (nlp : option Pipeline) (text : str) : str :=
  join " " (spacy_tokenize nlp text).

(** ** The orchestrator

    A page is a dict: the keys ['page_number'] and ['text'] are read with
    [page[...]], which raises [KeyError] when the key is absent, so each is
    an [option] here.  ['font_info'] is read with a default and handed to
    [detect_sections], which never looks at it; it is left out.  The input
    dict [docs_text] is the list of its items in iteration order. *)

Record Page := { page_number : option Z; p_text : option str }.

Record Chunk := {
  document : str;
  chunk_page : Z;
  section_title : str;
  section_text : str;
  word_count : nat;
  char_count : nat;
  sentence_count : nat;
  section_type : str
}.

Inductive outcome (A : Type) : Type :=
| Returned (a : A)
| KeyError (key : string).
Arguments Returned {A} a.
Arguments KeyError {A} key.

(** [self.config.get("min_section_length", 30)], for a config that holds the
    key or not *)
Definition min_section_length (config : option Z) : Z :=
  match config with Some m => m | None => 30%Z end.

(** The dict of lines 103 to 112 *)
Definition make_chunk (doc_name : str) (page_num : Z) (section : str * str)
  : Chunk :=
  let (title, text) := section in
  {| document := doc_name;
     chunk_page := page_num;
     section_title := title;
     section_text := text;
     word_count := length (split_ws text);
     char_count := length text;
     sentence_count :=
       length (filter (fun s => nonempty (strip s))
                      (split_on (Ascii.eqb dot) text));
     section_type := _classify_section_type title text |}.

(** The body of the loop over the pages, lines 97 to 112 *)
Definition page_chunks (nlp : option Oracle) (min_len : Z) (doc_name : str)
    (page : Page) : outcome (list Chunk) :=
  match page_number page with
  | None => KeyError "page_number"
  | Some page_num =>
      match p_text page with
      | None => KeyError "text"
      | Some text =>
          Returned
            (map (make_chunk doc_name page_num)
               (filter (fun section =>
                          negb (zlen (strip (snd section)) <? min_len)%Z)
                       (detect_sections nlp text)))
      end
  end.

(** A loop that appends to [section_chunks] until an exception leaves it *)
Fixpoint extend_each {A} (step : A -> outcome (list Chunk)) (xs : list A)
  : outcome (list Chunk) :=
  match xs with
  | [] => Returned []
  | x :: rest =>
      match step x with
      | KeyError k => KeyError k
      | Returned chunks =>
          match extend_each step rest with
          | KeyError k => KeyError k
          | Returned more => Returned (chunks ++ more)
          end
      end
  end.

Definition split_documents_into_sections (nlp : option Oracle)
    (config : option Z) (docs_text : list (str * list Page))
  : outcome (list Chunk) :=
  let min_len := min_section_length config in
  extend_each
    (fun doc => extend_each (page_chunks nlp min_len (fst doc)) (snd doc))
    docs_text.

(** ** The module-level functions, which build a processor with no config *)

Definition split_documents_into_sections_fn (nlp : option Oracle)
    (docs_text : list (str * list Page)) : outcome (list Chunk) :=
  split_documents_into_sections nlp None docs_text.

(** [persona] keeps its default, the empty string. *)
Definition extract_refined_snippet_fn (nlp : option Oracle)
    (section_text query_vector : str) (max_length : Z) : str :=
  extract_refined_snippet nlp section_text query_vector [] max_length.

(** A character that [re.split('[\.\n]', ...)] does not split at *)
Definition sentence_char (c : ascii) : bool :=
  negb (Ascii.eqb c dot || Ascii.eqb c newline).

(** A character that can stand in a token of the cleaned text: no white
    space, no upper-case letter, no punctuation. *)
Definition token_char (c : ascii) : bool :=
  negb (isspace c) && negb (is_upper c) && negb (mem_char c punctuation).

(** Two runs one after the other: the chunks of both, or the first error *)
Definition and_then (a b : outcome (list Chunk)) : outcome (list Chunk) :=
  match a with
  | KeyError k => KeyError k
  | Returned x =>
      match b with
      | KeyError k => KeyError k
      | Returned y => Returned (x ++ y)
      end
  end.

(** A page dict that holds both keys *)
Definition has_keys (page : Page) : Prop :=
  page_number page <> None /\ p_text page <> None.

(** A token of the cleaned text *)
Definition is_token (w : str) : Prop :=
  w <> [] /\ forallb token_char w = true.

(** A character that [clean_text] drops or turns into a separator *)
Definition blank_or_punctuation (c : ascii) : bool :=
  isspace c || mem_char c punctuation.

(** The labels of the classifier *)
Definition SECTION_TYPES : list str :=
  [ lit "guide"; lit "conversion"; lit "signatures"; lit "checklist";
    lit "activity"; lit "tips"; lit "entertainment"; lit "content" ].

(** The characters that the persona annotation puts before the buffer *)
Definition persona_prefix_of (persona : str) : str :=
  (if contains "Travel" persona then lit "Travel planner note: " else [])
  ++ (if contains "HR" persona then lit "For HR professionals: " else []).

(** * The properties as the specification words them *)

Module Spec.

(** The usable-title predicate, condition by condition. *)
Record usable_title (t : str) : Prop := {
  ut_nonempty : t <> [];
  ut_length : 10 <= length t;
  ut_not_placeholder :
    ~ In (lower t) [lit "untitled section"; lit "section"; lit "heading"];
  ut_no_final_punctuation :
    forall p, In p [lit "."; lit "*"; lit ":"; lit ";"] -> endswith t p = false;
  ut_not_bullet : ~ In t [BULLET; BLACK_CIRCLE; lit "-"; lit "*"];
  ut_alphabetic : exists c, In c t /\ isalpha c = true;
  ut_two_words : 2 <= length (split_ws t);
  ut_no_lowercase_start : forall c rest, t = c :: rest -> is_lower c = false
}.

(** The classifier as an ordered table of keyword rules: the label of the
    first rule one of whose keywords occurs in the lower-cased title, and
    "content" when there is none. *)
Definition CLASSIFY_RULES : list (list str * str) :=
  [ ([lit "guide"], lit "guide");
    ([lit "convert"; lit "export"], lit "conversion");
    ([lit "sign"; lit "signature"], lit "signatures");
    ([lit "checklist"], lit "checklist");
    ([lit "activity"; lit "things to do"], lit "activity");
    ([lit "packing"], lit "tips");
    ([lit "tips"; lit "trick"], lit "tips");
    ([lit "nightlife"; lit "entertainment"], lit "entertainment") ].

Definition rule_matches (t : str) (rule : list str * str) : bool :=
  existsb (fun k => contains k t) (fst rule).

Definition first_match (t : str) : str :=
  match find (rule_matches t) CLASSIFY_RULES with
  | Some rule => snd rule
  | None => lit "content"
  end.

(** The sentences of [xs] whose relevance is [k], in the order of [xs]. *)
Definition with_key {A} (key : A -> nat) (k : nat) (xs : list A) : list A :=
  filter (fun x => key x =? k) xs.

(** [". "] after each sentence, as the assembly loop writes them. *)
Definition joined (sents : list str) : str :=
  concat (map (fun s => s ++ lit ". ") sents).

End Spec.

(** * Example inputs *)

Module Ex.

Definition nl : str := [newline].

(** The page of the two-heading example. *)
Definition two_headings : str :=
  lit "Packing Checklist" ++ nl ++ lit "Bring sunscreen and a hat." ++ nl ++
  lit "Travel Tips For Families" ++ nl ++ lit "Book early and travel light.".

(** The same two headings over bodies of 40 and 42 characters that end in a
    period (a body line without the period would itself be a heading). *)
Definition two_headings_long : str :=
  lit "Packing Checklist" ++ nl ++
  lit "Bring sunscreen and a hat for the beach." ++ nl ++
  lit "Travel Tips For Families" ++ nl ++
  lit "Book early and travel light with children.".

(** A page whose only line is a usable title. *)
Definition lone_title : str := lit "Packing Checklist For Families".

Definition blank_page : str := lit "  " ++ nl ++ [ascii_of_nat 9] ++ lit " ".

(** A language model that sees no token and no noun chunk, and finds every
    pair of documents equally similar. *)
Definition silent : Oracle :=
  {| run := fun _ => {| tokens := []; noun_chunks := [] |};
     similarity := fun _ _ => 0%Q |}.

Definition two_sentences : str :=
  lit "The weather was pleasant all week" ++ nl ++
  lit "Budget hotels near the beach".

Definition hotel_query : str := lit "budget hotels beach".

Definition hiring : str := lit "Employees must submit onboarding forms promptly".

Definition good_page : Page :=
  {| page_number := Some 1%Z; p_text := Some two_headings_long |}.

Definition page_without_text : Page :=
  {| page_number := Some 2%Z; p_text := None |}.

Definition empty_page : Page :=
  {| page_number := Some 3%Z; p_text := Some blank_page |}.

Definition library : list (str * list Page) :=
  [(lit "guide.pdf", [good_page; empty_page])].

End Ex.

(** * The string operations on small inputs *)

Module Readings.

Example split_keeps_empty_pieces :
  split_lines (lit "a" ++ Ex.nl ++ Ex.nl ++ lit "b" ++ Ex.nl)
  = [lit "a"; []; lit "b"; []].
Proof. reflexivity. Qed.

Example split_of_empty : split_lines [] = [[]].
Proof. reflexivity. Qed.

Example strip_both_ends : strip "  two  words " = lit "two  words".
Proof. reflexivity. Qed.

Example words_of : split_ws "  two  words " = [lit "two"; lit "words"].
Proof. reflexivity. Qed.

Example title_case : title "noun CHUNK of-text" = lit "Noun Chunk Of-Text".
Proof. reflexivity. Qed.

Example slice_negative : slice_to "hello" (-1) = lit "hell".
Proof. reflexivity. Qed.

Example patterns_on_title_case :
  map (fun pat => re_match pat "Packing Checklist") HEADER_PATTERNS
  = [true; false; true; false].
Proof. vm_compute. reflexivity. Qed.

(** In the last pattern only the first alternative asks for a letter before
    the keyword; the other keywords must start the line. *)
Example patterns_on_keywords :
  map (re_match (nth 3 HEADER_PATTERNS {| body := Void; dollar := false |}))
      [lit "A short Guide, revised."; lit "Checklist: what to bring.";
       lit "my Checklist: what to bring."; lit "Things to Do in June."]
  = [true; true; false; true].
Proof. vm_compute. reflexivity. Qed.

Example heading_needs_ten_characters :
  map _is_heading [lit "Tips"; lit "Tips for the road"; lit "Ends in a period."]
  = [false; true; false].
Proof. vm_compute. reflexivity. Qed.

Example stable_ranking :
  sorted_desc Nat.ltb (@length ascii) [lit "aa"; lit "b"; lit "cc"; lit "ddd"]
  = [lit "ddd"; lit "aa"; lit "cc"; lit "b"].
Proof. reflexivity. Qed.

End Readings.

(** * Facts about the string operations *)

Module StrFacts.

Ltac by_cases_on_char c :=
  destruct c as [[] [] [] [] [] [] [] []]; vm_compute; try reflexivity;
  try discriminate; auto.

Lemma eqb_str_true (a b : str) : eqb_str a b = true <-> a = b.
Proof.
  unfold eqb_str. destruct (list_eq_dec ascii_dec a b); split; congruence.
Qed.

Lemma mem_str_In (x : str) (set : list str) : mem_str x set = true <-> In x set.
Proof.
  unfold mem_str. rewrite existsb_exists. split.
  - intros (y & Hy & E). apply eqb_str_true in E. now subst.
  - intros H. exists x. split; [assumption | now apply eqb_str_true].
Qed.

Lemma nonempty_false {A} (l : list A) : nonempty l = false <-> l = [].
Proof. destruct l; simpl; split; congruence. Qed.

Lemma nonempty_true {A} (l : list A) : nonempty l = true <-> l <> [].
Proof. destruct l; simpl; split; congruence. Qed.

(** ** [dropwhile], [lstrip], [rstrip], [strip] *)

Lemma dropwhile_all p s : forallb p s = true -> dropwhile p s = [].
Proof.
  induction s as [|c s IH]; simpl; [reflexivity|].
  destruct (p c); simpl; [exact IH | discriminate].
Qed.

Lemma dropwhile_nil_all p s : dropwhile p s = [] -> forallb p s = true.
Proof.
  induction s as [|c s IH]; simpl; [reflexivity|].
  destruct (p c); simpl; [exact IH | discriminate].
Qed.

Lemma dropwhile_head p s : existsb p (firstn 1 (dropwhile p s)) = false.
Proof.
  induction s as [|c s IH]; simpl; [reflexivity|].
  destruct (p c) eqn:E; [exact IH|]. simpl. now rewrite E.
Qed.

Lemma dropwhile_fix p s : existsb p (firstn 1 s) = false -> dropwhile p s = s.
Proof.
  destruct s as [|c s]; simpl; [reflexivity|].
  destruct (p c); simpl; [discriminate | reflexivity].
Qed.

Lemma dropwhile_length p s : length (dropwhile p s) <= length s.
Proof.
  induction s as [|c s IH]; simpl; [lia|]. destruct (p c); simpl; lia.
Qed.

Lemma dropwhile_snoc p l c :
  dropwhile p (l ++ [c]) =
  match dropwhile p l with
  | [] => if p c then [] else [c]
  | d => d ++ [c]
  end.
Proof.
  induction l as [|x l IH]; simpl; [reflexivity|].
  destruct (p x); [exact IH | reflexivity].
Qed.

Lemma rstrip_cons c s :
  rstrip (c :: s) =
  match rstrip s with
  | [] => if isspace c then [] else [c]
  | r => c :: r
  end.
Proof.
  unfold rstrip. simpl rev. rewrite dropwhile_snoc.
  destruct (dropwhile isspace (rev s)) as [|d ds] eqn:E.
  - simpl. now destruct (isspace c).
  - assert (Hn : rev (d :: ds) <> []).
    { intros R. apply (f_equal (@length _)) in R.
      rewrite length_rev in R. discriminate. }
    cbv iota. rewrite rev_app_distr.
    change (rev [c] ++ rev (d :: ds)) with (c :: rev (d :: ds)).
    destruct (rev (d :: ds)); [contradiction | reflexivity].
Qed.

Lemma rstrip_nil : rstrip [] = [].
Proof. reflexivity. Qed.

Lemma rstrip_all s : forallb isspace s = true -> rstrip s = [].
Proof.
  induction s as [|c s IH]; [reflexivity|]. simpl. intros H.
  apply andb_prop in H as [Hc Hs]. rewrite rstrip_cons, (IH Hs). now rewrite Hc.
Qed.

Lemma rstrip_nil_all s : rstrip s = [] -> forallb isspace s = true.
Proof.
  induction s as [|c s IH]; [reflexivity|]. rewrite rstrip_cons. simpl.
  destruct (rstrip s); [|discriminate].
  destruct (isspace c); [intros _; now apply IH | discriminate].
Qed.

Lemma rstrip_idem s : rstrip (rstrip s) = rstrip s.
Proof.
  induction s as [|c s IH]; [reflexivity|]. rewrite rstrip_cons.
  destruct (rstrip s) as [|r rs] eqn:E.
  - destruct (isspace c) eqn:Hc; [reflexivity|].
    rewrite rstrip_cons, rstrip_nil. now rewrite Hc.
  - rewrite rstrip_cons, IH. reflexivity.
Qed.

Lemma rstrip_length s : length (rstrip s) <= length s.
Proof.
  unfold rstrip. rewrite length_rev.
  etransitivity; [apply dropwhile_length|]. now rewrite length_rev.
Qed.

Lemma rstrip_head s :
  existsb isspace (firstn 1 s) = false ->
  existsb isspace (firstn 1 (rstrip s)) = false.
Proof.
  destruct s as [|c s]; [reflexivity|]. rewrite rstrip_cons. simpl.
  destruct (isspace c) eqn:Hc; [discriminate|]. intros _.
  destruct (rstrip s); simpl; now rewrite Hc.
Qed.

(** Nothing is removed after a character that is not white space. *)
Lemma rstrip_app_keep a c b :
  isspace c = false -> rstrip (a ++ c :: b) = a ++ c :: rstrip b.
Proof.
  intros Hc. induction a as [|x a IH]; simpl.
  - rewrite rstrip_cons. destruct (rstrip b); [now rewrite Hc | reflexivity].
  - rewrite rstrip_cons, IH. destruct a; reflexivity.
Qed.

Lemma strip_all s : forallb isspace s = true -> strip s = [].
Proof. intros H. unfold strip, lstrip. now rewrite (dropwhile_all _ _ H). Qed.

Lemma strip_nil_all s : strip s = [] -> forallb isspace s = true.
Proof.
  unfold strip, lstrip. intros H. apply rstrip_nil_all in H.
  pose proof (dropwhile_head isspace s) as Hh.
  destruct (dropwhile isspace s) as [|c t] eqn:E.
  - now apply dropwhile_nil_all.
  - simpl in H, Hh. destruct (isspace c); discriminate.
Qed.

Lemma strip_idem s : strip (strip s) = strip s.
Proof.
  unfold strip at 1. unfold lstrip.
  rewrite dropwhile_fix.
  - unfold strip. apply rstrip_idem.
  - unfold strip. apply rstrip_head, dropwhile_head.
Qed.

Lemma strip_length s : length (strip s) <= length s.
Proof.
  unfold strip, lstrip. etransitivity; [apply rstrip_length|].
  apply dropwhile_length.
Qed.

Lemma strip_head s : existsb isspace (firstn 1 (strip s)) = false.
Proof. apply rstrip_head, dropwhile_head. Qed.

(** A text that begins with a character that is not white space keeps
    everything up to its last such character. *)
Lemma strip_keep c a d b :
  isspace c = false -> isspace d = false ->
  strip (c :: a ++ d :: b) = c :: a ++ d :: rstrip b.
Proof.
  intros Hc Hd. unfold strip, lstrip. simpl. rewrite Hc.
  change (c :: a ++ d :: b) with ((c :: a) ++ d :: b).
  now rewrite rstrip_app_keep.
Qed.

End StrFacts.

(** * The section detector *)

Module DetectorFacts.
Import StrFacts.

Lemma split_on_forallb p q s :
  forallb q s = true -> Forall (fun w => forallb q w = true) (split_on p s).
Proof.
  induction s as [|c s IH]; simpl; intros H.
  - constructor; [reflexivity | constructor].
  - apply andb_prop in H as [Hc Hs]. specialize (IH Hs).
    destruct (split_on p s) as [|w ws].
    + constructor; [reflexivity | constructor].
    + inversion IH; subst. destruct (p c).
      * constructor; [reflexivity | now constructor].
      * constructor; [simpl; now rewrite Hc | assumption].
Qed.

Lemma blank_page_lines page_text :
  forallb isspace page_text = true ->
  Forall (fun l => l = []) (page_lines page_text).
Proof.
  intros H. unfold page_lines, split_lines. apply Forall_map.
  eapply Forall_impl; [|apply split_on_forallb, H].
  intros w Hw. now apply strip_all.
Qed.

Lemma heading_line_empty nlp : heading_line nlp [] = false.
Proof. destruct nlp; reflexivity. Qed.

Lemma heading_scan_blank nlp lines :
  Forall (fun l => l = []) lines -> forall i, heading_scan nlp i lines = [].
Proof.
  induction 1 as [|l lines Hl _ IH]; intros i; simpl; [reflexivity|].
  subst l. rewrite heading_line_empty. apply IH.
Qed.

(** C7. For every page text that is empty or made of white space only,
    [detect_sections] returns the empty list, with or without a language
    model. *)
Theorem detect_sections_blank (nlp : option Oracle) (page_text : str) :
  forallb isspace page_text = true ->
  detect_sections nlp page_text = [].
Proof.
  intros H.
  assert (P : primary_sections nlp page_text = []).
  { unfold primary_sections.
    rewrite (heading_scan_blank nlp (blank_page_lines _ H)). reflexivity. }
  unfold detect_sections. rewrite P, (strip_all _ H).
  destruct nlp; reflexivity.
Qed.

Lemma detect_sections_blank_witness :
  forallb isspace Ex.blank_page = true /\
  detect_sections (Some Ex.silent) Ex.blank_page = [] /\
  detect_sections None [] = [].
Proof.
  split; [reflexivity|]. split.
  - apply (detect_sections_blank (Some Ex.silent) Ex.blank_page). reflexivity.
  - apply (detect_sections_blank None []). reflexivity.
Defined.

(** ** Emitted titles *)

Lemma collect_sections_usable lines n idxs t b :
  In (t, b) (collect_sections lines n idxs) ->
  _is_usable_title t = true /\ strip t = t.
Proof.
  induction idxs as [|hidx later IH]; simpl; [contradiction|].
  destruct (_is_usable_title (strip (nth hidx lines []))) eqn:U; simpl; [|exact IH].
  match goal with |- context [if ?c then _ else _] => destruct c end;
    [exact IH|].
  intros [E | H]; [|now apply IH].
  injection E as <- _. split; [assumption | apply strip_idem].
Qed.

Lemma max_by_len_In xs : forall best,
  max_by_len best xs = best \/ In (max_by_len best xs) xs.
Proof.
  induction xs as [|x xs IH]; intros best; simpl; [now left|].
  destruct (length best <? length x).
  - destruct (IH x) as [-> | H]; auto.
  - destruct (IH best) as [-> | H]; auto.
Qed.

Lemma best_title_In xs : xs <> [] -> In (best_title xs) xs.
Proof.
  destruct xs as [|x xs]; [congruence|]. intros _. simpl.
  destruct (max_by_len_In xs x) as [-> | H]; auto.
Qed.

Lemma page_lines_stripped page_text l :
  In l (page_lines page_text) -> strip l = l.
Proof.
  unfold page_lines. rewrite in_map_iff. intros (w & <- & _). apply strip_idem.
Qed.

Lemma strip_edges s : edge_space (strip s) = false.
Proof.
  unfold edge_space. rewrite strip_head. simpl.
  unfold strip, rstrip. rewrite rev_involutive. apply dropwhile_head.
Qed.

Lemma strip_fixed s : edge_space s = false -> strip s = s.
Proof.
  unfold edge_space. intros H. apply orb_false_elim in H as [H1 H2].
  unfold strip, lstrip, rstrip.
  rewrite (dropwhile_fix _ _ H1), (dropwhile_fix _ _ H2). apply rev_involutive.
Qed.

Lemma edge_space_map s :
  edge_space s =
  existsb id (firstn 1 (map isspace s))
  || existsb id (firstn 1 (rev (map isspace s))).
Proof.
  unfold edge_space. rewrite <- map_rev. f_equal.
  - destruct s; reflexivity.
  - destruct (rev s); reflexivity.
Qed.

Lemma lower_char_space c : isspace (lower_char c) = isspace c.
Proof. by_cases_on_char c. Qed.

Lemma upper_char_space c : isspace (upper_char c) = isspace c.
Proof. by_cases_on_char c. Qed.

Lemma title_from_space s : forall b,
  map isspace (title_from b s) = map isspace s.
Proof.
  induction s as [|c s IH]; intros b; simpl; [reflexivity|].
  rewrite IH. f_equal.
  destruct b; [apply lower_char_space | apply upper_char_space].
Qed.

Lemma title_stripped s : strip (title (strip s)) = title (strip s).
Proof.
  apply strip_fixed. rewrite edge_space_map. unfold title.
  rewrite title_from_space, <- edge_space_map. apply strip_edges.
Qed.

Lemma fallback_sections_usable o lines page_text t b :
  (forall l, In l lines -> strip l = l) ->
  In (t, b) (fallback_sections o lines page_text) ->
  _is_usable_title t = true /\ strip t = t.
Proof.
  intros Hl. unfold fallback_sections.
  destruct (nonempty (lines_non_bullet lines)) eqn:N.
  - destruct (_is_usable_title _) eqn:U; simpl; [|contradiction].
    intros [E | []]. injection E as <- _. split; [assumption|].
    apply Hl. apply nonempty_true in N. apply best_title_In in N.
    unfold lines_non_bullet in N. now apply filter_In in N.
  - destruct (find _ _) as [probable|] eqn:F; simpl; [|contradiction].
    intros [E | []]. injection E as <- _.
    apply find_some in F as [Hin U]. split; [assumption|].
    unfold chunk_titles in Hin. apply in_map_iff in Hin as (ch & <- & _).
    apply title_stripped.
Qed.

Lemma detect_sections_usable nlp page_text t b :
  In (t, b) (detect_sections nlp page_text) ->
  _is_usable_title t = true /\ strip t = t.
Proof.
  unfold detect_sections.
  match goal with |- context [if ?c then _ else _] => destruct c end;
    [contradiction|].
  destruct nlp as [o|].
  - match goal with |- context [if ?c then _ else _] => destruct c end.
    + apply fallback_sections_usable. apply page_lines_stripped.
    + apply collect_sections_usable.
  - apply collect_sections_usable.
Qed.

Lemma usable_title_spelled_out t :
  _is_usable_title t = true -> strip t = t -> Spec.usable_title t.
Proof.
  unfold _is_usable_title. intros H St. rewrite St in H.
  destruct (negb (nonempty t) || (length t <? 10)) eqn:C1; [discriminate|].
  destruct (eqb_str (lower t) "untitled section") eqn:C2; [discriminate|].
  destruct (existsb (endswith t) _) eqn:C3 in H; [discriminate|].
  destruct (mem_str t _) eqn:C4 in H; [discriminate|].
  destruct (negb (existsb isalpha t)) eqn:C5; [discriminate|].
  destruct (mem_str (lower t) _) eqn:C6 in H; [discriminate|].
  destruct (length (split_ws t) <? 2) eqn:C7; [discriminate|].
  destruct (existsb is_lower (firstn 1 t)) eqn:C8; [discriminate|].
  apply orb_false_elim in C1 as [N L]. apply negb_false_iff in N.
  constructor.
  - now apply nonempty_true.
  - apply Nat.ltb_ge in L. exact L.
  - intros [E | Hin].
    + symmetry in E. apply eqb_str_true in E. congruence.
    + apply mem_str_In in Hin. congruence.
  - intros p Hp. destruct (endswith t p) eqn:E; [|reflexivity].
    assert (X : existsb (endswith t) [lit "."; lit "*"; lit ":"; lit ";"] = true)
      by (apply existsb_exists; eauto).
    congruence.
  - intros Hin. apply mem_str_In in Hin. congruence.
  - apply negb_false_iff in C5. apply existsb_exists in C5. exact C5.
  - apply Nat.ltb_ge in C7. exact C7.
  - intros c rest ->. simpl in C8. now apply orb_false_elim in C8 as [C8 _].
Qed.

(** C5. Every title that [detect_sections] returns, from the heading pass or
    from either step of the fallback, passes [_is_usable_title]; it is then
    not empty, has at least 10 characters, is not a placeholder, does not end
    in one of [. * : ;], is not a bullet glyph, has a letter, has at least two
    words and does not start with a lower-case letter. *)
Theorem detect_sections_titles_usable
    (nlp : option Oracle) (page_text t b : str) :
  In (t, b) (detect_sections nlp page_text) ->
  _is_usable_title t = true /\ Spec.usable_title t.
Proof.
  intros H. apply detect_sections_usable in H as [U St].
  split; [assumption | now apply usable_title_spelled_out].
Qed.

Lemma detect_sections_titles_usable_witness :
  In (lit "Packing Checklist For Families", Ex.lone_title)
     (detect_sections (Some Ex.silent) Ex.lone_title) /\
  _is_usable_title "Packing Checklist For Families" = true /\
  Spec.usable_title "Packing Checklist For Families".
Proof.
  assert (H : In (lit "Packing Checklist For Families", Ex.lone_title)
                 (detect_sections (Some Ex.silent) Ex.lone_title))
    by (vm_compute; left; reflexivity).
  split; [exact H|].
  exact (detect_sections_titles_usable (Some Ex.silent) Ex.lone_title _ _ H).
Defined.

End DetectorFacts.

(** * The two-heading page and the fallback *)

Module FallbackFacts.
Import StrFacts.

(** C1, as stated, fails: the page of the example yields no section. *)
Lemma two_headings_not_two_sections :
  ~ (length (detect_sections None Ex.two_headings) = 2 /\
     map fst (detect_sections None Ex.two_headings)
     = [lit "Packing Checklist"; lit "Travel Tips For Families"]).
Proof. vm_compute. intros [H _]. discriminate H. Qed.

(** C1, amended. On the page of the example the heading candidates are
    exactly the lines "Packing Checklist" and "Travel Tips For Families", in
    that order, and both are usable titles, but [detect_sections] returns
    the empty list, with or without a language model: the two bodies have 26
    and 28 characters and a body under 30 characters is dropped.  On the
    page [Ex.two_headings_long], the same two headings over the bodies
    "Bring sunscreen and a hat for the beach." and "Book early and travel
    light with children." (40 and 42 characters, each ending in a period),
    the result is exactly the two sections, top to bottom, under those
    titles. *)
Theorem two_headings_sections (nlp : option Oracle) :
  heading_scan nlp 0 (page_lines Ex.two_headings) = [0; 2] /\
  map (fun i => nth i (page_lines Ex.two_headings) [])
      (heading_scan nlp 0 (page_lines Ex.two_headings))
  = [lit "Packing Checklist"; lit "Travel Tips For Families"] /\
  forallb _is_usable_title
    [lit "Packing Checklist"; lit "Travel Tips For Families"] = true /\
  detect_sections nlp Ex.two_headings = [] /\
  detect_sections nlp Ex.two_headings_long
  = [ (lit "Packing Checklist", lit "Bring sunscreen and a hat for the beach.");
      (lit "Travel Tips For Families",
       lit "Book early and travel light with children.") ].
Proof.
  destruct nlp as [o|]; vm_compute; repeat split; reflexivity.
Qed.

(** C2, as stated, fails: without a language model a page whose only line is
    a usable title gets no section from the fallback. *)
Lemma no_fallback_without_oracle :
  primary_sections None Ex.lone_title = [] /\
  nonempty (strip Ex.lone_title) = true /\
  lines_non_bullet (page_lines Ex.lone_title) = [Ex.lone_title] /\
  _is_usable_title (best_title [Ex.lone_title]) = true /\
  detect_sections None Ex.lone_title
  <> [(best_title [Ex.lone_title], strip Ex.lone_title)].
Proof. vm_compute. repeat split; try reflexivity. discriminate. Qed.

(** C2, amended. With a language model: when the heading pass finds no
    section on a page that is not blank, some line qualifies for the first
    fallback step, and the first longest such line is a usable title, the
    result is the single section with that line as title and the trimmed
    page text as body.  Without a language model the fallback is skipped as
    a whole: when the heading pass finds no section, the result is empty. *)
Theorem fallback_first_step (page_text : str) :
  let candidates := lines_non_bullet (page_lines page_text) in
  (forall o : Oracle,
      primary_sections (Some o) page_text = [] ->
      strip page_text <> [] ->
      candidates <> [] ->
      _is_usable_title (best_title candidates) = true ->
      detect_sections (Some o) page_text
      = [(best_title candidates, strip page_text)]) /\
  (primary_sections None page_text = [] ->
   detect_sections None page_text = []).
Proof.
  intros candidates. split.
  - intros o P S C U. unfold detect_sections. rewrite P.
    apply nonempty_true in S. rewrite S. simpl.
    unfold fallback_sections. fold candidates.
    apply nonempty_true in C. rewrite C, U. reflexivity.
  - intros P. unfold detect_sections. rewrite P.
    match goal with |- context [if ?c then _ else _] => destruct c end;
      reflexivity.
Qed.

Lemma fallback_first_step_witness :
  detect_sections (Some Ex.silent) Ex.lone_title
  = [(Ex.lone_title, Ex.lone_title)] /\
  detect_sections None Ex.lone_title = [].
Proof.
  destruct (fallback_first_step Ex.lone_title) as [Hsome Hnone]. split.
  - apply (Hsome Ex.silent); try reflexivity; vm_compute; discriminate.
  - apply Hnone. reflexivity.
Defined.

End FallbackFacts.

(** * The section classifier *)

Module ClassifyFacts.

(** C8. The classifier returns the label of the first rule, in the order
    guide, conversion, signatures, checklist, activity, packing (as tips),
    tips, entertainment, one of whose keywords occurs in the lower-cased
    title, and "content" when no rule matches; so a title whose lower-case
    form contains both "guide" and "checklist" is a "guide", whatever the
    body. *)
Theorem classify_first_match (title content : str) :
  _classify_section_type title content = Spec.first_match (lower title) /\
  (contains "guide" (lower title) = true ->
   contains "checklist" (lower title) = true ->
   _classify_section_type title content = lit "guide").
Proof.
  split.
  - unfold _classify_section_type, Spec.first_match, Spec.CLASSIFY_RULES,
      Spec.rule_matches.
    cbn [find existsb fst snd]. cbv zeta. rewrite !orb_false_r.
    repeat match goal with
           | |- context [contains ?k (lower title)] =>
               destruct (contains k (lower title)); cbn [orb]
           end; reflexivity.
  - intros G _. unfold _classify_section_type. now rewrite G.
Qed.

Lemma classify_first_match_witness :
  _classify_section_type "Packing Guide Checklist" "Bring a hat" = lit "guide".
Proof.
  apply (proj2 (classify_first_match "Packing Guide Checklist" "Bring a hat"));
    reflexivity.
Defined.

End ClassifyFacts.

(** * The snippet extractor *)

Module SnippetFacts.
Import StrFacts.

(** ** The descending stable sort *)

Section SortFacts.
Variables (A K : Type) (ltb : K -> K -> bool) (key : A -> K).

Lemma insert_desc_perm x l : Permutation (x :: l) (insert_desc ltb key x l).
Proof.
  induction l as [|y l IH]; simpl; [reflexivity|].
  destruct (ltb (key x) (key y)); [|reflexivity].
  rewrite perm_swap. now constructor.
Qed.

Lemma sorted_desc_perm xs : Permutation xs (sorted_desc ltb key xs).
Proof.
  induction xs as [|x xs IH]; simpl; [constructor|].
  rewrite <- insert_desc_perm. now constructor.
Qed.

Lemma sorted_desc_nil xs : sorted_desc ltb key xs = [] -> xs = [].
Proof.
  intros H. pose proof (sorted_desc_perm xs) as P. rewrite H in P.
  now apply Permutation_sym, Permutation_nil in P.
Qed.
End SortFacts.

Section NatKey.
Variables (A : Type) (key : A -> nat).

Let ge_key (a b : A) : Prop := key b <= key a.

Lemma insert_desc_with_key k x l :
  Spec.with_key key k (insert_desc Nat.ltb key x l)
  = Spec.with_key key k (x :: l).
Proof.
  unfold Spec.with_key.
  induction l as [|y l IH]; [reflexivity|]. simpl insert_desc.
  destruct (key x <? key y) eqn:L; [|reflexivity].
  apply Nat.ltb_lt in L. simpl filter at 1. rewrite IH. simpl.
  destruct (key x =? k) eqn:Ex, (key y =? k) eqn:Ey; try reflexivity.
  apply Nat.eqb_eq in Ex, Ey. lia.
Qed.

(** Sentences of equal key keep the order they have in the input. *)
Lemma sorted_desc_stable k xs :
  Spec.with_key key k (sorted_desc Nat.ltb key xs) = Spec.with_key key k xs.
Proof.
  induction xs as [|x xs IH]; [reflexivity|]. simpl sorted_desc.
  rewrite insert_desc_with_key. unfold Spec.with_key in *. simpl.
  now rewrite IH.
Qed.

Lemma insert_desc_sorted x l :
  StronglySorted ge_key l ->
  StronglySorted ge_key (insert_desc Nat.ltb key x l).
Proof.
  induction 1 as [|y l Hs IH Hy]; simpl.
  - repeat constructor.
  - destruct (key x <? key y) eqn:L.
    + apply Nat.ltb_lt in L. constructor; [assumption|].
      eapply Permutation_Forall; [apply insert_desc_perm|].
      constructor; [unfold ge_key; lia | assumption].
    + apply Nat.ltb_ge in L. constructor; [now constructor|].
      constructor; [exact L|].
      eapply Forall_impl; [|exact Hy]. unfold ge_key. intros; lia.
Qed.

Lemma sorted_desc_sorted xs :
  StronglySorted (fun a b => key b <= key a) (sorted_desc Nat.ltb key xs).
Proof.
  induction xs as [|x xs IH]; simpl; [constructor|].
  now apply insert_desc_sorted.
Qed.
End NatKey.

(** ** The assembly loop *)

Lemma joined_snoc l s : Spec.joined (l ++ [s]) = Spec.joined l ++ s ++ lit ". ".
Proof.
  unfold Spec.joined. rewrite map_app, concat_app. simpl.
  now rewrite app_nil_r.
Qed.

Lemma joined_cons s l : Spec.joined (s :: l) = s ++ lit ". " ++ Spec.joined l.
Proof. unfold Spec.joined. simpl. now rewrite <- app_assoc. Qed.

(** The loop appends the sentences of a prefix of [ranked]: each of them fits
    with its separator when its turn comes, and the sentence after the
    prefix, when there is one, does not. *)
Lemma assemble_prefix max_length ranked : forall result,
  exists j,
    j <= length ranked /\
    assemble max_length result ranked = result ++ Spec.joined (firstn j ranked) /\
    (forall i, i < j ->
       (zlen (result ++ Spec.joined (firstn i ranked))
        + zlen (nth i ranked []) + 2 <= max_length)%Z) /\
    (j < length ranked ->
       (max_length < zlen (result ++ Spec.joined (firstn j ranked))
                     + zlen (nth j ranked []) + 2)%Z).
Proof.
  induction ranked as [|sent rest IH]; intros result; cbn [assemble].
  - exists 0. simpl. rewrite app_nil_r. repeat split; try lia.
  - destruct (_ <=? _)%Z eqn:Fit.
    + destruct (IH (result ++ sent ++ lit ". ")) as (j & Hj & E & Hfit & Hstop).
      exists (S j). rewrite E. cbn [firstn]. rewrite joined_cons.
      rewrite <- !app_assoc. split; [simpl; lia|]. split; [reflexivity|].
      split.
      * intros [|i] Hi.
        -- simpl. rewrite app_nil_r. apply Z.leb_le in Fit. exact Fit.
        -- cbn [firstn nth]. rewrite joined_cons.
           specialize (Hfit i ltac:(lia)).
           rewrite <- !app_assoc in Hfit. exact Hfit.
      * intros Hlt. cbn [length nth] in *. specialize (Hstop ltac:(lia)).
        rewrite <- !app_assoc in Hstop. exact Hstop.
    + exists 0. simpl. rewrite app_nil_r. repeat split; try lia.
      intros _. apply Z.leb_gt in Fit. exact Fit.
Qed.

Lemma assemble_bound max_length ranked : forall result,
  (zlen result <= max_length)%Z ->
  (zlen (assemble max_length result ranked) <= max_length)%Z.
Proof.
  induction ranked as [|sent rest IH]; intros result H; cbn [assemble];
    [exact H|].
  destruct (_ <=? _)%Z eqn:Fit; [|exact H].
  apply IH. apply Z.leb_le in Fit. unfold zlen.
  rewrite !length_app. simpl. lia.
Qed.

(** ** Ranking without a language model *)

(** C10. Without a language model the ranking is a stable descending sort on
    the overlap count: the ranked list is a rearrangement of the candidate
    sentences in which no sentence comes before one of greater overlap, the
    sentences of any one overlap count come in the order they have in the
    body, and the buffer that the assembly loop fills is a prefix of the
    ranked list, so that the snippet keeps that order. *)
Theorem rank_stable_descending (section_text query_vector persona : str)
    (max_length : Z) :
  let sentences := candidate_sentences section_text in
  let key := overlap (word_set query_vector) in
  let ranked := rank None persona query_vector sentences in
  Permutation sentences ranked /\
  StronglySorted (fun a b => key b <= key a) ranked /\
  (forall k, Spec.with_key key k ranked = Spec.with_key key k sentences) /\
  exists j,
    snippet_buffer None section_text query_vector persona max_length
    = Spec.joined (firstn j ranked).
Proof.
  intros sentences key ranked. unfold ranked, rank. fold key.
  split; [apply sorted_desc_perm|].
  split; [apply sorted_desc_sorted|].
  split; [intros k; apply sorted_desc_stable|].
  unfold snippet_buffer.
  destruct (assemble_prefix max_length
              (rank None persona query_vector sentences) [])
    as (j & _ & E & _).
  exists j. exact E.
Qed.

(** ** The length budget *)

Lemma annotate_nonempty persona result :
  nonempty (annotate persona result) = nonempty result.
Proof.
  unfold annotate. destruct result as [|c r].
  - now rewrite andb_false_r.
  - destruct (nonempty persona); cbn [andb nonempty]; [|reflexivity].
    destruct (contains "HR" persona), (contains "Travel" persona); reflexivity.
Qed.

Lemma slice_to_bound s k : (0 <= k)%Z -> (zlen (slice_to s k) <= k)%Z.
Proof.
  intros H. unfold slice_to, zlen. apply Z.leb_le in H as H'. rewrite H'.
  pose proof (firstn_le_length (Z.to_nat k) s). rewrite length_firstn. lia.
Qed.

(** C6, as stated, fails for a negative [max_length]. *)
Lemma negative_budget_exceeded :
  ~ (zlen (extract_refined_snippet None "hello" [] [] (-1)) <= -1)%Z.
Proof. vm_compute. intros H. apply H. reflexivity. Qed.

(** C6, amended. The assembly loop appends exactly the sentences of a prefix
    of the ranked list: each of them, when its turn comes, fits with its two
    character separator within [max_length], and the first sentence that
    does not fit ends the loop.  So, for every call with an empty persona
    and a [max_length] that is not negative, the returned string has at most
    [max_length] characters. *)
Theorem snippet_within_budget (nlp : option Oracle)
    (section_text query_vector persona : str) (max_length : Z) :
  let ranked :=
    rank nlp persona query_vector (candidate_sentences section_text) in
  let buffer :=
    snippet_buffer nlp section_text query_vector persona max_length in
  (exists j,
      j <= length ranked /\
      buffer = Spec.joined (firstn j ranked) /\
      (forall i, i < j ->
         (zlen (Spec.joined (firstn i ranked)) + zlen (nth i ranked []) + 2
          <= max_length)%Z) /\
      (j < length ranked ->
         (max_length
          < zlen (Spec.joined (firstn j ranked)) + zlen (nth j ranked []) + 2)%Z))
  /\
  ((0 <= max_length)%Z ->
   (zlen (extract_refined_snippet nlp section_text query_vector [] max_length)
    <= max_length)%Z).
Proof.
  intros ranked buffer. split.
  - destruct (assemble_prefix max_length ranked []) as (j & Hj & E & F & G).
    exists j. repeat split; assumption.
  - intros H. unfold extract_refined_snippet.
    destruct (negb (nonempty (strip section_text))); [exact H|].
    destruct (negb (nonempty (candidate_sentences section_text)));
      [now apply slice_to_bound|].
    rewrite annotate_nonempty.
    destruct (nonempty _); [|now apply slice_to_bound].
    unfold annotate. cbn [nonempty andb].
    apply Z.le_trans
      with (zlen (snippet_buffer nlp section_text query_vector [] max_length)).
    + unfold zlen. apply inj_le, strip_length.
    + unfold snippet_buffer. apply assemble_bound. exact H.
Qed.

Lemma snippet_within_budget_witness :
  (zlen (extract_refined_snippet None Ex.two_sentences Ex.hotel_query [] 40)
   <= 40)%Z.
Proof.
  apply (proj2 (snippet_within_budget None Ex.two_sentences Ex.hotel_query [] 40)).
  discriminate.
Defined.

(** ** The truncation when nothing fits *)

Lemma rank_nil nlp persona query_vector sentences :
  rank nlp persona query_vector sentences = [] -> sentences = [].
Proof. destruct nlp; apply sorted_desc_nil. Qed.

Lemma blank_no_candidates section_text :
  forallb isspace section_text = true -> candidate_sentences section_text = [].
Proof.
  intros H. unfold candidate_sentences.
  pose proof (DetectorFacts.split_on_forallb
                (fun c => Ascii.eqb c dot || Ascii.eqb c newline) _ _ H) as F.
  induction F as [|w ws Hw _ IH]; [reflexivity|]. simpl.
  rewrite (strip_all _ Hw). exact IH.
Qed.

(** With an empty buffer the result is a plain slice of the text: of the
    first candidate sentence in the order of the body when there is a
    candidate sentence, whatever the persona. *)
Lemma empty_buffer_result nlp section_text query_vector persona max_length :
  snippet_buffer nlp section_text query_vector persona max_length = [] ->
  extract_refined_snippet nlp section_text query_vector persona max_length
  = if negb (nonempty (strip section_text)) then []
    else if negb (nonempty (candidate_sentences section_text))
         then slice_to section_text max_length
         else slice_to (nth 0 (candidate_sentences section_text) []) max_length.
Proof.
  intros E. unfold extract_refined_snippet.
  now rewrite annotate_nonempty, E.
Qed.

(** C3. The call on which the truncation is not taken from the top-ranked
    sentence: the second sentence of the body ranks first, it does not fit
    in 10 characters, and the result is the start of the first sentence of
    the body. *)
Theorem truncation_takes_first_of_body :
  candidate_sentences Ex.two_sentences
  = [lit "The weather was pleasant all week";
     lit "Budget hotels near the beach"] /\
  rank None [] Ex.hotel_query (candidate_sentences Ex.two_sentences)
  = [lit "Budget hotels near the beach";
     lit "The weather was pleasant all week"] /\
  snippet_buffer None Ex.two_sentences Ex.hotel_query [] 10 = [] /\
  extract_refined_snippet None Ex.two_sentences Ex.hotel_query [] 10
  = lit "The weathe" /\
  slice_to (lit "Budget hotels near the beach") 10 = lit "Budget hot".
Proof. vm_compute. repeat split; reflexivity. Qed.

(** ** The persona annotation *)

Lemma startswith_app p x : startswith (p ++ x) p = true.
Proof.
  induction p as [|c p IH]; simpl; [now destruct x|].
  now rewrite Ascii.eqb_refl.
Qed.

Lemma contains_nonempty c k persona :
  contains (c :: k) persona = true -> nonempty persona = true.
Proof. destruct persona; simpl; [discriminate | reflexivity]. Qed.

Lemma strip_keeps_prefix (p buf : str) :
  nonempty p = true -> existsb isspace (firstn 1 p) = false ->
  (exists a b, buf = a ++ dot :: b) ->
  exists tail, strip (p ++ buf) = p ++ tail.
Proof.
  destruct p as [|c p]; [discriminate|]. intros _ Hc (a & b & ->).
  cbn [firstn existsb] in Hc. apply orb_false_elim in Hc as [Hc _].
  exists (a ++ dot :: rstrip b).
  rewrite <- app_comm_cons, app_assoc, strip_keep by (assumption || reflexivity).
  now rewrite <- app_assoc.
Qed.

(** A buffer that is not empty starts with a sentence and its separator. *)
Lemma buffer_has_dot nlp section_text query_vector persona max_length :
  snippet_buffer nlp section_text query_vector persona max_length <> [] ->
  exists a b,
    snippet_buffer nlp section_text query_vector persona max_length
    = a ++ dot :: b.
Proof.
  unfold snippet_buffer. intros N.
  destruct (assemble_prefix max_length
              (rank nlp persona query_vector
                 (candidate_sentences section_text)) [])
    as (j & _ & E & _).
  rewrite E in *. cbn [app] in *.
  destruct j as [|j]; [now elim N|].
  destruct (rank nlp persona query_vector (candidate_sentences section_text))
    as [|s rest]; [now elim N|].
  cbn [firstn]. rewrite joined_cons. exists s. eexists. reflexivity.
Qed.

Lemma nonempty_buffer_result nlp section_text query_vector persona max_length :
  snippet_buffer nlp section_text query_vector persona max_length <> [] ->
  extract_refined_snippet nlp section_text query_vector persona max_length
  = strip (annotate persona
             (snippet_buffer nlp section_text query_vector persona max_length)).
Proof.
  intros N. unfold extract_refined_snippet. rewrite annotate_nonempty.
  apply nonempty_true in N as N'. rewrite N'.
  destruct (candidate_sentences section_text) as [|s ss] eqn:C.
  - exfalso. apply N. unfold snippet_buffer. rewrite C. now destruct nlp.
  - destruct (nonempty (strip section_text)) eqn:B; [reflexivity|].
    apply nonempty_false, strip_nil_all, blank_no_candidates in B. congruence.
Qed.

(** C4, as stated, fails: a persona with "HR" and a snippet that is not
    empty, from the truncation, without the prefix. *)
Lemma no_prefix_on_truncation :
  contains "HR" "HR Manager" = true /\
  extract_refined_snippet None Ex.hiring "forms" "HR Manager" 20
  = lit "Employees must submi" /\
  startswith (extract_refined_snippet None Ex.hiring "forms" "HR Manager" 20)
             "For HR professionals: " = false.
Proof. vm_compute. repeat split; reflexivity. Qed.

(** C4, amended. When the assembly loop leaves a buffer that is not empty:
    with "Travel" in the persona the result begins with "Travel planner
    note: ", followed by "For HR professionals: " when the persona also has
    "HR"; with "HR" and no "Travel" in the persona the result begins with
    "For HR professionals: ".  When the loop leaves the buffer empty, the
    result is a plain slice of the text, with no prefix, whatever the
    persona. *)
Theorem persona_prefix (nlp : option Oracle)
    (section_text query_vector persona : str) (max_length : Z) :
  let buffer :=
    snippet_buffer nlp section_text query_vector persona max_length in
  let r :=
    extract_refined_snippet nlp section_text query_vector persona max_length in
  (buffer <> [] ->
   (contains "Travel" persona = true ->
    startswith r "Travel planner note: " = true) /\
   (contains "HR" persona = true -> contains "Travel" persona = false ->
    startswith r "For HR professionals: " = true) /\
   (contains "HR" persona = true -> contains "Travel" persona = true ->
    startswith r "Travel planner note: For HR professionals: " = true)) /\
  (buffer = [] ->
   r = if negb (nonempty (strip section_text)) then []
       else if negb (nonempty (candidate_sentences section_text))
            then slice_to section_text max_length
            else slice_to (nth 0 (candidate_sentences section_text) [])
                          max_length).
Proof.
  intros buffer r. split; [|apply empty_buffer_result].
  intros N. unfold r. rewrite (nonempty_buffer_result _ _ _ _ _ N).
  pose proof (buffer_has_dot _ _ _ _ _ N) as D. fold buffer in D |- *.
  apply nonempty_true in N. unfold annotate. fold buffer. rewrite N.
  repeat split.
  - intros T. rewrite (contains_nonempty _ _ _ T), T. cbn [andb].
    destruct (contains "HR" persona).
    + destruct (@strip_keeps_prefix (lit "Travel planner note: ")
                  (lit "For HR professionals: " ++ buffer)
                  eq_refl eq_refl) as (tail & ->).
      * destruct D as (a & b & ->).
        exists (lit "For HR professionals: " ++ a), b.
        now rewrite <- app_assoc.
      * apply startswith_app.
    + destruct (@strip_keeps_prefix (lit "Travel planner note: ") buffer
                  eq_refl eq_refl D) as (tail & ->).
      apply startswith_app.
  - intros H T. rewrite (contains_nonempty _ _ _ H), H, T. cbn [andb].
    destruct (@strip_keeps_prefix (lit "For HR professionals: ") buffer
                eq_refl eq_refl D) as (tail & ->).
    apply startswith_app.
  - intros H T. rewrite (contains_nonempty _ _ _ H), H, T. cbn [andb].
    rewrite app_assoc.
    destruct (@strip_keeps_prefix
                (lit "Travel planner note: " ++ lit "For HR professionals: ")
                buffer eq_refl eq_refl D) as (tail & ->).
    change (lit "Travel planner note: For HR professionals: ")
      with (lit "Travel planner note: " ++ lit "For HR professionals: ").
    apply startswith_app.
Qed.

Lemma persona_prefix_witness :
  startswith
    (extract_refined_snippet None Ex.two_sentences Ex.hotel_query
       "Travel Blogger" 320)
    "Travel planner note: " = true /\
  startswith
    (extract_refined_snippet None Ex.two_sentences Ex.hotel_query
       "HR Manager" 320)
    "For HR professionals: " = true /\
  startswith
    (extract_refined_snippet None Ex.two_sentences Ex.hotel_query
       "HR Travel" 320)
    "Travel planner note: For HR professionals: " = true /\
  extract_refined_snippet None Ex.hiring "forms" "HR Manager" 20
  = lit "Employees must submi".
Proof.
  split; [|split; [|split]].
  - apply (proj1 (persona_prefix None Ex.two_sentences Ex.hotel_query
                    "Travel Blogger" 320));
      [vm_compute; discriminate | reflexivity].
  - apply (proj1 (persona_prefix None Ex.two_sentences Ex.hotel_query
                    "HR Manager" 320));
      [vm_compute; discriminate | reflexivity | reflexivity].
  - apply (proj1 (persona_prefix None Ex.two_sentences Ex.hotel_query
                    "HR Travel" 320));
      [vm_compute; discriminate | reflexivity | reflexivity].
  - rewrite (proj2 (persona_prefix None Ex.hiring "forms" "HR Manager" 20));
      reflexivity.
Defined.

End SnippetFacts.

(** * The text normalizer *)

Module CleanFacts.
Import StrFacts.

Lemma lower_char_idem c : lower_char (lower_char c) = lower_char c.
Proof. by_cases_on_char c. Qed.

Lemma plain_space : plain_char " " = true.
Proof. reflexivity. Qed.

Lemma dropwhile_Forall (P : ascii -> Prop) p s :
  Forall P s -> Forall P (dropwhile p s).
Proof.
  induction 1 as [|c s Hc Hs IH]; simpl; [constructor|].
  destruct (p c); [exact IH | now constructor].
Qed.

Lemma strip_Forall (P : ascii -> Prop) s : Forall P s -> Forall P (strip s).
Proof.
  intros H. unfold strip, rstrip, lstrip.
  apply Forall_rev, dropwhile_Forall, Forall_rev, dropwhile_Forall, H.
Qed.

Lemma sub_ws_Forall (P : ascii -> Prop) s :
  P " "%char -> Forall P s -> forall b, Forall P (sub_ws b s).
Proof.
  intros Hsp. induction 1 as [|c s Hc Hs IH]; intros b; simpl; [constructor|].
  destruct (isspace c); [destruct b|]; try constructor; auto.
Qed.

Lemma lowered_plain text :
  Forall (fun c => plain_char c = true) (delete_punctuation (lower text)).
Proof.
  unfold delete_punctuation, lower. apply Forall_forall. intros c Hc.
  apply filter_In in Hc as [Hin Hp]. apply in_map_iff in Hin as (c' & <- & _).
  unfold plain_char. now rewrite lower_char_idem, Ascii.eqb_refl, Hp.
Qed.

(** ** The shape of a cleaned text *)

Lemma sub_ws_single_spaced s : forall b, single_spaced b (sub_ws b s) = true.
Proof.
  induction s as [|c s IH]; intros b; simpl; [reflexivity|].
  destruct (isspace c) eqn:Hc.
  - destruct b; [apply IH|]. simpl. apply IH.
  - simpl. rewrite Hc. apply IH.
Qed.

Lemma single_spaced_weaken s : single_spaced true s = true ->
  single_spaced false s = true.
Proof.
  destruct s as [|c s]; simpl; [reflexivity|].
  destruct (isspace c); [|trivial]. now rewrite andb_false_r.
Qed.

Lemma lstrip_single_spaced s : forall b,
  single_spaced b s = true -> single_spaced false (lstrip s) = true.
Proof.
  unfold lstrip. induction s as [|c s IH]; intros b; simpl; [reflexivity|].
  destruct (isspace c) eqn:Hc.
  - intros H. apply andb_prop in H as [_ H]. now apply (IH true).
  - intros H. simpl. now rewrite Hc.
Qed.

Lemma rstrip_single_spaced s : forall b,
  single_spaced b s = true -> single_spaced b (rstrip s) = true.
Proof.
  induction s as [|c s IH]; intros b H; [reflexivity|].
  rewrite rstrip_cons. simpl in H.
  destruct (isspace c) eqn:Hc.
  - apply andb_prop in H as [H1 H2]. specialize (IH true H2).
    destruct (rstrip s) as [|r rs] eqn:E; [reflexivity|].
    rewrite <- E in *. cbn [single_spaced]. now rewrite Hc, H1, IH.
  - specialize (IH false H).
    destruct (rstrip s) as [|r rs] eqn:E.
    + simpl. now rewrite Hc.
    + rewrite <- E in *. cbn [single_spaced]. now rewrite Hc.
Qed.

Lemma single_spaced_fixed s : forall b,
  single_spaced b s = true -> sub_ws b s = s.
Proof.
  induction s as [|c s IH]; intros b; simpl; [reflexivity|].
  destruct (isspace c).
  - intros H. apply andb_prop in H as [H H2]. apply andb_prop in H as [E Hb].
    apply negb_true_iff in Hb. subst b. apply Ascii.eqb_eq in E. subst c.
    now rewrite (IH true H2).
  - intros H. now rewrite (IH false H).
Qed.

Lemma plain_fixed s :
  Forall (fun c => plain_char c = true) s ->
  lower s = s /\ delete_punctuation s = s.
Proof.
  unfold lower, delete_punctuation.
  induction 1 as [|c s Hc Hs [IH1 IH2]]; [now split|].
  unfold plain_char in Hc. apply andb_prop in Hc as [E Hp].
  apply Ascii.eqb_eq in E. cbn [map filter]. rewrite E, Hp, IH1, IH2. now split.
Qed.

(** C9. [clean_text] is idempotent. *)
Theorem clean_text_idempotent (x : str) :
  clean_text (clean_text x) = clean_text x.
Proof.
  assert (P : Forall (fun c => plain_char c = true) (clean_text x)).
  { unfold clean_text. apply strip_Forall.
    apply sub_ws_Forall; [reflexivity | apply lowered_plain]. }
  assert (S : single_spaced false (clean_text x) = true).
  { unfold clean_text, strip.
    apply rstrip_single_spaced, (lstrip_single_spaced _ false).
    apply sub_ws_single_spaced. }
  destruct (plain_fixed P) as [L D].
  unfold clean_text at 1. rewrite L, D, (single_spaced_fixed _ _ S).
  unfold clean_text. apply strip_idem.
Qed.

End CleanFacts.

(** * More about the section detector *)

Module HeadingFacts.
Import StrFacts DetectorFacts.

Lemma strip_nonempty_source s : strip s <> [] -> s <> [].
Proof. intros H E. subst s. now apply H. Qed.

Lemma is_heading_strip line : _is_heading (strip line) = _is_heading line.
Proof.
  unfold _is_heading. destruct (strip line) as [|a l] eqn:E.
  - destruct line; vm_compute; reflexivity.
  - pose proof (strip_idem line) as I. rewrite E in I.
    cbn [nonempty negb]. rewrite I.
    destruct line; [discriminate E | reflexivity].
Qed.

(** ** The heading indices *)

Lemma heading_scan_In nlp lines : forall i j,
  In j (heading_scan nlp i lines) <->
  i <= j < i + length lines /\ heading_line nlp (nth (j - i) lines []) = true.
Proof.
  induction lines as [|l lines IH]; intros i j; cbn [heading_scan length].
  - split; [contradiction | lia].
  - destruct (heading_line nlp l) eqn:H.
    + cbn [In]. rewrite IH. split.
      * intros [<- | (B & T)].
        -- rewrite Nat.sub_diag. cbn [nth]. split; [lia | exact H].
        -- replace (j - i) with (S (j - S i)) by lia. cbn [nth].
           split; [lia | exact T].
      * intros (B & T). destruct (Nat.eq_dec i j) as [E | N]; [now left|].
        right. replace (j - i) with (S (j - S i)) in T by lia.
        split; [lia | exact T].
    + rewrite IH. split.
      * intros (B & T). replace (j - i) with (S (j - S i)) by lia.
        split; [lia | exact T].
      * intros (B & T). destruct (Nat.eq_dec i j) as [E | N].
        -- subst j. rewrite Nat.sub_diag in T. cbn [nth] in T. congruence.
        -- replace (j - i) with (S (j - S i)) in T by lia.
           split; [lia | exact T].
Qed.

Lemma heading_scan_sorted nlp lines : forall i,
  StronglySorted lt (heading_scan nlp i lines).
Proof.
  induction lines as [|l lines IH]; intros i; cbn [heading_scan];
    [constructor|].
  destruct (heading_line nlp l); [|apply IH].
  constructor; [apply IH|]. apply Forall_forall. intros j Hj.
  apply heading_scan_In in Hj. lia.
Qed.

Lemma insert_uniq_below x l : Forall (lt x) l -> insert_uniq x l = x :: l.
Proof.
  destruct 1 as [|y l Hy _]; [reflexivity|]. simpl.
  apply Nat.ltb_lt in Hy. now rewrite Hy.
Qed.

Lemma sorted_set_fixed l : StronglySorted lt l -> sorted_set l = l.
Proof.
  unfold sorted_set. induction 1 as [|x l _ IH Hx]; [reflexivity|].
  simpl. rewrite IH. now apply insert_uniq_below.
Qed.

Lemma heading_idxs_fixed nlp lines :
  sorted_set (heading_scan nlp 0 lines) = heading_scan nlp 0 lines.
Proof. apply sorted_set_fixed, heading_scan_sorted. Qed.

(** ** The sections that the second loop keeps *)

Lemma slice_nonempty {A} (xs : list A) a b :
  slice xs a b <> [] -> a < b /\ a < length xs.
Proof.
  unfold slice. intros H. split.
  - destruct (b - a) eqn:E; [now elim H | lia].
  - destruct (Nat.lt_ge_cases a (length xs)) as [L | G]; [exact L|].
    rewrite skipn_all2, firstn_nil in H by exact G. now elim H.
Qed.

Lemma collect_sections_kept lines n idxs :
  StronglySorted lt idxs ->
  exists kept,
    StronglySorted lt kept /\ incl kept idxs /\
    map fst (collect_sections lines n idxs)
    = map (fun i => strip (nth i lines [])) kept /\
    Forall (fun i => S i < length lines /\ ~ In (S i) idxs) kept.
Proof.
  induction 1 as [|hidx later Hs IH Hlt]; cbn [collect_sections].
  - exists []. repeat split; try constructor. apply incl_refl.
  - destruct IH as (kept & Ks & Ki & Km & Kf).
    assert (Skip :
      exists kept0,
        StronglySorted lt kept0 /\ incl kept0 (hidx :: later) /\
        map fst (collect_sections lines n later)
        = map (fun i => strip (nth i lines [])) kept0 /\
        Forall (fun i => S i < length lines /\ ~ In (S i) (hidx :: later))
               kept0).
    { exists kept. split; [exact Ks|]. split; [now apply incl_tl|].
      split; [exact Km|]. apply Forall_forall. intros i Hi.
      rewrite Forall_forall in Kf. destruct (Kf i Hi) as [B N].
      split; [exact B|]. intros [E | Hin]; [|now apply N].
      rewrite Forall_forall in Hlt. specialize (Hlt i (Ki i Hi)). lia. }
    destruct (negb (_is_usable_title _)); [exact Skip|].
    match goal with |- context [if ?c then _ else _] => destruct c eqn:Len end;
      [exact Skip|].
    exists (hidx :: kept). split; [|split; [|split]].
    + constructor; [exact Ks|]. apply Forall_forall. intros i Hi.
      rewrite Forall_forall in Hlt. apply Hlt, Ki, Hi.
    + intros i [<- | Hi]; [now left | right; now apply Ki].
    + cbn [map fst]. now rewrite Km.
    + destruct Skip as (k0 & _). constructor.
      * apply Nat.ltb_ge in Len.
        assert (NE : slice lines (hidx + 1)
                       match later with hnext :: _ => hnext | [] => n end
                     <> []).
        { intros E. rewrite E in Len. cbn in Len. lia. }
        apply slice_nonempty in NE as [B1 B2].
        split; [lia|]. intros [E | Hin]; [lia|].
        destruct later as [|hnext later']; [contradiction|].
        inversion Hs as [|? ? _ Hn]; subst.
        destruct Hin as [E | Hin]; [lia|].
        rewrite Forall_forall in Hn. specialize (Hn _ Hin). lia.
      * apply Forall_forall. intros i Hi.
        rewrite Forall_forall in Kf. destruct (Kf i Hi) as [B N].
        split; [exact B|]. intros [E | Hin]; [|now apply N].
        rewrite Forall_forall in Hlt. specialize (Hlt i (Ki i Hi)). lia.
Qed.

Lemma page_line_stripped page_text i :
  strip (nth i (page_lines page_text) []) = nth i (page_lines page_text) [].
Proof.
  destruct (nth_in_or_default i (page_lines page_text) []) as [H | ->];
    [now apply page_lines_stripped with page_text | reflexivity].
Qed.

Lemma collect_sections_bodies lines n idxs t b :
  In (t, b) (collect_sections lines n idxs) -> strip b = b /\ 30 <= length b.
Proof.
  induction idxs as [|hidx later IH]; cbn [collect_sections]; [contradiction|].
  destruct (negb (_is_usable_title _)); [exact IH|].
  match goal with |- context [if ?c then _ else _] => destruct c eqn:Len end;
    [exact IH|].
  intros [E | H]; [|now apply IH].
  injection E as _ <-. split; [apply strip_idem | now apply Nat.ltb_ge in Len].
Qed.

Lemma fallback_sections_shape o lines page_text t b :
  In (t, b) (fallback_sections o lines page_text) ->
  b = strip page_text /\ fallback_sections o lines page_text = [(t, b)].
Proof.
  unfold fallback_sections.
  destruct (nonempty (lines_non_bullet lines)).
  - destruct (_is_usable_title _); [|contradiction].
    intros [E | []]. injection E as <- <-. now split.
  - destruct (find _ _); [|contradiction].
    intros [E | []]. injection E as <- <-. now split.
Qed.

(** What the heading test never accepts: a line that, once trimmed, has
    fewer than 10 characters, ends in a period or is one of the placeholder
    words in any letter case; and white space around the line does not
    change the answer. *)
Theorem is_heading_rejects (line : str) :
  _is_heading (strip line) = _is_heading line /\
  (_is_heading line = true ->
   10 <= length (strip line) /\
   endswith (strip line) "." = false /\
   ~ In (lower (strip line))
        [lit "untitled section"; lit "section"; lit "heading"; lit "index"]).
Proof.
  split; [apply is_heading_strip|]. unfold _is_heading.
  destruct (negb (nonempty line)); [discriminate|]. cbv zeta.
  destruct (mem_str (lower (strip line)) _) eqn:P; [discriminate|].
  destruct (mem_str (strip line) _); [discriminate|].
  destruct (endswith (strip line) ".") eqn:D; [discriminate|].
  destruct (length (strip line) <? 10) eqn:L; [discriminate|].
  intros _. apply Nat.ltb_ge in L. repeat split; try assumption.
  intros Hin. apply mem_str_In in Hin. congruence.
Qed.

Lemma is_heading_rejects_witness :
  10 <= length (strip "  Travel Tips For Families ") /\
  _is_heading "  Travel Tips For Families " = _is_heading "Travel Tips For Families".
Proof.
  split.
  - apply (proj2 (is_heading_rejects "  Travel Tips For Families ")).
    vm_compute. reflexivity.
  - symmetry. apply (proj1 (is_heading_rejects "  Travel Tips For Families ")).
Defined.

(** The list of heading indices that the first loop builds is strictly
    increasing, holds exactly the indices of the lines that pass the heading
    test, and is left as it is by [sorted(set(...))]. *)
Theorem heading_idxs_increasing (nlp : option Oracle) (page_text : str) :
  let lines := page_lines page_text in
  let heading_idxs := heading_scan nlp 0 lines in
  StronglySorted lt heading_idxs /\
  (forall i, In i heading_idxs <->
             i < length lines /\ heading_line nlp (nth i lines []) = true) /\
  sorted_set heading_idxs = heading_idxs.
Proof.
  intros lines heading_idxs. split; [apply heading_scan_sorted|].
  split; [|apply heading_idxs_fixed].
  intros i. unfold heading_idxs. rewrite heading_scan_In, Nat.sub_0_r.
  split; intros (B & T); (split; [lia | exact T]).
Qed.

(** The titles of the heading pass are lines of the page, in the order of
    the page; each is a line that passes the heading test and is directly
    followed by a line that does not.  A heading that ends the page, or that
    is directly followed by another heading, gives no section. *)
Theorem primary_sections_in_page_order (nlp : option Oracle) (page_text : str) :
  let lines := page_lines page_text in
  exists idxs,
    StronglySorted lt idxs /\
    map fst (primary_sections nlp page_text)
    = map (fun i => nth i lines []) idxs /\
    Forall (fun i => S i < length lines /\
                     heading_line nlp (nth i lines []) = true /\
                     heading_line nlp (nth (S i) lines []) = false) idxs.
Proof.
  intros lines. unfold primary_sections. fold lines.
  rewrite heading_idxs_fixed.
  destruct (collect_sections_kept lines (length lines)
              (heading_scan_sorted nlp lines 0))
    as (kept & Ks & Ki & Km & Kf).
  exists kept. split; [exact Ks|]. split.
  - rewrite Km. apply map_ext. intros i. apply page_line_stripped.
  - apply Forall_forall. intros i Hi. rewrite Forall_forall in Kf.
    destruct (Kf i Hi) as [B N]. split; [exact B|]. split.
    + apply Ki, heading_scan_In in Hi. rewrite Nat.sub_0_r in Hi. apply Hi.
    + destruct (heading_line nlp (nth (S i) lines [])) eqn:H; [|reflexivity].
      elim N. apply heading_scan_In. rewrite Nat.sub_0_r. split; [lia | exact H].
Qed.

Lemma detect_sections_bodies_aux nlp page_text t b :
  In (t, b) (detect_sections nlp page_text) ->
  strip b = b /\ b <> [] /\
  (30 <= length b \/
   (nlp <> None /\ b = strip page_text /\
    detect_sections nlp page_text = [(t, b)])).
Proof.
  assert (Primary : In (t, b) (primary_sections nlp page_text) ->
                    strip b = b /\ b <> [] /\ 30 <= length b).
  { intros H. apply collect_sections_bodies in H as [S L].
    split; [exact S|]. split; [|exact L]. intros ->. simpl in L. lia. }
  unfold detect_sections.
  match goal with |- context [if ?c then _ else _] => destruct c eqn:Last end;
    [contradiction|].
  destruct nlp as [o|].
  - destruct (negb (nonempty (primary_sections (Some o) page_text))
              && nonempty (strip page_text)) eqn:G.
    + intros H. apply fallback_sections_shape in H as [-> F].
      apply andb_prop in G as [_ G]. apply nonempty_true in G.
      split; [apply strip_idem|]. split; [exact G|]. right.
      split; [discriminate|]. split; [reflexivity | exact F].
    + intros H. destruct (Primary H) as (S & N & L). auto.
  - intros H. destruct (Primary H) as (S & N & L). auto.
Qed.

(** Every body that [detect_sections] returns is trimmed and not empty.  A
    body from the heading pass has at least 30 characters; the only other
    body is the trimmed page text of the fallback, which needs a language
    model and is then the only section. *)
Theorem detect_sections_bodies (nlp : option Oracle) (page_text t b : str) :
  In (t, b) (detect_sections nlp page_text) ->
  strip b = b /\ b <> [] /\
  (30 <= length b \/
   (nlp <> None /\ b = strip page_text /\
    detect_sections nlp page_text = [(t, b)])).
Proof. apply detect_sections_bodies_aux. Qed.

Lemma detect_sections_bodies_witness :
  strip Ex.lone_title = Ex.lone_title /\
  strip (lit "Bring sunscreen and a hat for the beach.")
  = lit "Bring sunscreen and a hat for the beach.".
Proof.
  split.
  - apply (detect_sections_bodies (Some Ex.silent) Ex.lone_title
             "Packing Checklist For Families" Ex.lone_title).
    vm_compute. left. reflexivity.
  - apply (detect_sections_bodies None Ex.two_headings_long
             "Packing Checklist" "Bring sunscreen and a hat for the beach.").
    vm_compute. left. reflexivity.
Defined.

End HeadingFacts.

(** * More about the snippet extractor *)

Module SnippetShape.
Import StrFacts SnippetFacts.

(** ** The candidate sentences *)

Lemma split_on_no_separator p s :
  Forall (fun w => forallb (fun c => negb (p c)) w = true) (split_on p s).
Proof.
  induction s as [|c s IH]; simpl.
  - constructor; [reflexivity | constructor].
  - destruct (split_on p s) as [|w ws].
    + constructor; [reflexivity | constructor].
    + inversion IH; subst. destruct (p c) eqn:E.
      * constructor; [reflexivity | now constructor].
      * constructor; [simpl; now rewrite E | assumption].
Qed.

Lemma dropwhile_forallb q p s :
  forallb q s = true -> forallb q (dropwhile p s) = true.
Proof.
  induction s as [|c s IH]; simpl; [reflexivity|]. intros H.
  apply andb_prop in H as [Hc Hs].
  destruct (p c); [now apply IH | simpl; now rewrite Hc, Hs].
Qed.

Lemma rev_forallb q (s : str) : forallb q (rev s) = forallb q s.
Proof.
  induction s as [|c s IH]; [reflexivity|]. simpl.
  rewrite forallb_app, IH. simpl. rewrite andb_true_r. apply andb_comm.
Qed.

Lemma strip_forallb q s : forallb q s = true -> forallb q (strip s) = true.
Proof.
  intros H. unfold strip, rstrip, lstrip.
  rewrite rev_forallb. apply dropwhile_forallb.
  rewrite rev_forallb. now apply dropwhile_forallb.
Qed.

(** Every candidate sentence is trimmed, has more than 10 characters and
    holds neither a period nor a newline. *)
Theorem candidate_sentences_shape (section_text s : str) :
  In s (candidate_sentences section_text) ->
  strip s = s /\ 10 < length s /\ forallb sentence_char s = true.
Proof.
  unfold candidate_sentences. rewrite in_map_iff. intros (w & <- & Hw).
  apply filter_In in Hw as [Hin L]. apply Nat.ltb_lt in L.
  split; [apply strip_idem|]. split; [exact L|].
  apply strip_forallb.
  pose proof (split_on_no_separator
                (fun c => Ascii.eqb c dot || Ascii.eqb c newline)
                section_text) as F.
  rewrite Forall_forall in F. exact (F w Hin).
Qed.

Lemma candidate_sentences_shape_witness :
  strip (lit "Budget hotels near the beach") = lit "Budget hotels near the beach".
Proof.
  apply (candidate_sentences_shape Ex.two_sentences
           "Budget hotels near the beach").
  vm_compute. right. left. reflexivity.
Defined.

Lemma candidate_head_not_space section_text s :
  In s (candidate_sentences section_text) ->
  s <> [] /\ existsb isspace (firstn 1 s) = false.
Proof.
  intros H. apply candidate_sentences_shape in H as (S & L & _). split.
  - intros ->. simpl in L. lia.
  - rewrite <- S. apply strip_head.
Qed.

Lemma rank_perm nlp persona query_vector sentences :
  Permutation sentences (rank nlp persona query_vector sentences).
Proof. destruct nlp; apply sorted_desc_perm. Qed.

(** ** The annotation as a prefix *)

Lemma annotate_prefix persona result :
  result <> [] -> annotate persona result = persona_prefix_of persona ++ result.
Proof.
  intros N. apply nonempty_true in N. unfold annotate, persona_prefix_of.
  rewrite N, andb_true_r. destruct persona as [|c persona]; [reflexivity|].
  cbn [nonempty].
  destruct (contains "HR" (c :: persona)), (contains "Travel" (c :: persona));
    reflexivity.
Qed.

Lemma persona_prefix_bound persona : (zlen (persona_prefix_of persona) <= 43)%Z.
Proof.
  unfold persona_prefix_of.
  destruct (contains "Travel" persona), (contains "HR" persona);
    vm_compute; discriminate.
Qed.

Lemma persona_prefix_head persona :
  existsb isspace (firstn 1 (persona_prefix_of persona)) = false.
Proof.
  unfold persona_prefix_of.
  destruct (contains "Travel" persona), (contains "HR" persona); reflexivity.
Qed.

Lemma persona_prefix_empty : persona_prefix_of [] = [].
Proof. reflexivity. Qed.

(** ** Trimming a buffer *)

Lemma firstn_1_app (x y : str) : x <> [] -> firstn 1 (x ++ y) = firstn 1 x.
Proof. destruct x; [congruence | reflexivity]. Qed.

Lemma strip_trailing_space y :
  y <> [] -> existsb isspace (firstn 1 y) = false ->
  existsb isspace (firstn 1 (rev y)) = false ->
  strip (y ++ lit " ") = y.
Proof.
  intros N H1 H2. unfold strip, lstrip, rstrip.
  rewrite (dropwhile_fix isspace (y ++ lit " "))
    by (now rewrite firstn_1_app).
  rewrite rev_app_distr. cbn [lit list_ascii_of_string rev app dropwhile].
  change (isspace " ") with true. cbn iota.
  rewrite (dropwhile_fix _ _ H2). apply rev_involutive.
Qed.

(** A buffer that is not empty begins with the first ranked sentence and
    ends with a period and a space. *)
Lemma buffer_ends nlp section_text query_vector persona max_length :
  snippet_buffer nlp section_text query_vector persona max_length <> [] ->
  exists top body,
    In top (candidate_sentences section_text) /\
    hd [] (rank nlp persona query_vector (candidate_sentences section_text))
    = top /\
    snippet_buffer nlp section_text query_vector persona max_length
    = (top ++ body) ++ lit ". ".
Proof.
  unfold snippet_buffer. intros N.
  set (ranked := rank nlp persona query_vector
                   (candidate_sentences section_text)) in *.
  destruct (assemble_prefix max_length ranked []) as (j & _ & E & _).
  cbn [app] in E. rewrite E in *.
  destruct j as [|j]; [now elim N|].
  destruct ranked as [|top rest] eqn:R; [now elim N|].
  exists top.
  assert (Hin : In top (candidate_sentences section_text)).
  { eapply Permutation_in;
      [apply Permutation_sym, (rank_perm nlp persona query_vector)|].
    fold ranked. rewrite R. now left. }
  cbn [firstn hd].
  destruct (@exists_last _ (top :: firstn j rest)) as (l & s & L);
    [discriminate|].
  rewrite L, joined_snoc.
  destruct l as [|t l].
  - injection L as <-. exists []. rewrite app_nil_r. now split.
  - injection L as <- L. exists (lit ". " ++ Spec.joined l ++ s).
    split; [exact Hin|]. split; [reflexivity|].
    rewrite joined_cons, <- !app_assoc. reflexivity.
Qed.

Lemma strip_annotated nlp section_text query_vector persona max_length :
  snippet_buffer nlp section_text query_vector persona max_length <> [] ->
  strip (persona_prefix_of persona
         ++ snippet_buffer nlp section_text query_vector persona max_length)
    ++ lit " "
  = persona_prefix_of persona
    ++ snippet_buffer nlp section_text query_vector persona max_length.
Proof.
  intros N. destruct (buffer_ends _ _ _ _ _ N) as (top & body & Hin & _ & E).
  rewrite E. apply candidate_head_not_space in Hin as [Tn Th].
  set (y := persona_prefix_of persona ++ (top ++ body) ++ [dot]).
  assert (W : persona_prefix_of persona ++ (top ++ body) ++ lit ". "
              = y ++ lit " ").
  { unfold y. now rewrite <- !app_assoc. }
  rewrite W. f_equal. apply strip_trailing_space.
  - unfold y. destruct (persona_prefix_of persona); [|discriminate].
    destruct top; [congruence | discriminate].
  - unfold y. destruct (persona_prefix_of persona) as [|c p] eqn:P.
    + cbn [app]. rewrite <- app_assoc. now rewrite firstn_1_app.
    + rewrite <- P. rewrite firstn_1_app by (rewrite P; discriminate).
      apply persona_prefix_head.
  - unfold y. rewrite app_assoc, rev_app_distr. reflexivity.
Qed.

Lemma snippet_from_buffer_eq nlp section_text query_vector persona max_length :
  snippet_buffer nlp section_text query_vector persona max_length <> [] ->
  extract_refined_snippet nlp section_text query_vector persona max_length
    ++ lit " "
  = persona_prefix_of persona
    ++ snippet_buffer nlp section_text query_vector persona max_length.
Proof.
  intros N. rewrite (nonempty_buffer_result _ _ _ _ _ N).
  rewrite (annotate_prefix persona N). now apply strip_annotated.
Qed.

(** When the assembly leaves a buffer that is not empty, the result is the
    persona prefix followed by the buffer without its final space: the
    chosen sentences in ranked order, each followed by a period, with single
    spaces between them. *)
Theorem snippet_from_buffer (nlp : option Oracle)
    (section_text query_vector persona : str) (max_length : Z) :
  let buffer :=
    snippet_buffer nlp section_text query_vector persona max_length in
  buffer <> [] ->
  extract_refined_snippet nlp section_text query_vector persona max_length
    ++ lit " "
  = persona_prefix_of persona ++ buffer.
Proof. intros buffer N. now apply snippet_from_buffer_eq. Qed.

Lemma snippet_from_buffer_witness :
  extract_refined_snippet None Ex.two_sentences Ex.hotel_query "HR Manager" 40
    ++ lit " "
  = lit "For HR professionals: Budget hotels near the beach. ".
Proof.
  rewrite (snippet_from_buffer None Ex.two_sentences Ex.hotel_query
             "HR Manager" 40); [reflexivity | vm_compute; discriminate].
Defined.

(** ** Empty results *)

Lemma slice_to_nonempty s k : (1 <= k)%Z -> s <> [] -> slice_to s k <> [].
Proof.
  intros K N. unfold slice_to.
  destruct (0 <=? k)%Z eqn:E; [|apply Z.leb_gt in E; lia].
  destruct (Z.to_nat k) eqn:T; [lia|]. destruct s; [congruence | discriminate].
Qed.

Lemma strip_with_dot a b : strip (a ++ dot :: b) <> [].
Proof.
  intros E. apply strip_nil_all in E. rewrite forallb_app in E.
  apply andb_prop in E as [_ E]. simpl in E. discriminate.
Qed.

(** With [max_length] at least 1 the result is the empty string exactly
    when the section text is blank. *)
Theorem snippet_empty_iff_blank (nlp : option Oracle)
    (section_text query_vector persona : str) (max_length : Z) :
  (1 <= max_length)%Z ->
  (extract_refined_snippet nlp section_text query_vector persona max_length
   = [] <-> forallb isspace section_text = true).
Proof.
  intros K. unfold extract_refined_snippet.
  destruct (nonempty (strip section_text)) eqn:B; cbn [negb].
  - assert (NB : forallb isspace section_text = false).
    { destruct (forallb isspace section_text) eqn:F; [|reflexivity].
      rewrite (strip_all _ F) in B. discriminate. }
    rewrite NB. split; [|discriminate]. intros R. exfalso. revert R.
    destruct (candidate_sentences section_text) as [|s ss] eqn:C; cbn [negb nonempty].
    + apply slice_to_nonempty; [exact K|].
      intros ->. discriminate.
    + rewrite annotate_nonempty.
      destruct (nonempty (snippet_buffer nlp section_text query_vector
                            persona max_length)) eqn:N.
      * apply nonempty_true in N. rewrite (annotate_prefix persona N).
        destruct (buffer_has_dot _ _ _ _ _ N) as (a & b & ->).
        rewrite app_assoc. apply strip_with_dot.
      * apply slice_to_nonempty; [exact K|]. cbn [nth].
        apply (candidate_head_not_space section_text). rewrite C. now left.
  - apply nonempty_false, strip_nil_all in B. rewrite B. now split.
Qed.

Lemma snippet_empty_iff_blank_witness :
  extract_refined_snippet None Ex.blank_page Ex.hotel_query "HR Manager" 320 = [].
Proof.
  apply (@snippet_empty_iff_blank None Ex.blank_page Ex.hotel_query
           "HR Manager" 320); [discriminate | reflexivity].
Defined.

(** ** The length of the result *)

Lemma snippet_length_bound nlp section_text query_vector persona max_length :
  (0 <= max_length)%Z ->
  (zlen (extract_refined_snippet nlp section_text query_vector persona
           max_length)
   <= max_length + zlen (persona_prefix_of persona))%Z.
Proof.
  intros K. pose proof (Zle_0_nat (length (persona_prefix_of persona))) as P.
  fold (zlen (persona_prefix_of persona)) in P.
  unfold extract_refined_snippet.
  destruct (negb (nonempty (strip section_text)));
    [change (zlen []) with 0%Z; lia|].
  destruct (negb (nonempty (candidate_sentences section_text))).
  { pose proof (slice_to_bound section_text K). lia. }
  rewrite annotate_nonempty.
  destruct (nonempty (snippet_buffer nlp section_text query_vector
                        persona max_length)) eqn:N.
  - apply nonempty_true in N. rewrite (annotate_prefix persona N).
    pose proof (strip_length
                  (persona_prefix_of persona
                   ++ snippet_buffer nlp section_text query_vector persona
                        max_length)) as L.
    rewrite length_app in L.
    pose proof (@assemble_bound max_length
                  (rank nlp persona query_vector
                     (candidate_sentences section_text)) [] K) as A.
    fold (snippet_buffer nlp section_text query_vector persona max_length) in A.
    unfold zlen in *. lia.
  - pose proof (slice_to_bound
                  (nth 0 (candidate_sentences section_text) []) K). lia.
Qed.

(** For a [max_length] that is not negative the result exceeds it by at most
    the persona prefix, which has at most 43 characters. *)
Theorem snippet_length_with_persona (nlp : option Oracle)
    (section_text query_vector persona : str) (max_length : Z) :
  (0 <= max_length)%Z ->
  (zlen (extract_refined_snippet nlp section_text query_vector persona
           max_length)
   <= max_length + zlen (persona_prefix_of persona))%Z /\
  (zlen (persona_prefix_of persona) <= 43)%Z.
Proof.
  intros K. split; [now apply snippet_length_bound | apply persona_prefix_bound].
Qed.

Lemma snippet_length_with_persona_witness :
  (zlen (extract_refined_snippet None Ex.two_sentences Ex.hotel_query
           "HR Travel" 40) <= 40 + 43)%Z.
Proof.
  destruct (@snippet_length_with_persona None Ex.two_sentences Ex.hotel_query
              "HR Travel" 40) as [A B]; [discriminate|].
  exact (Z.le_trans _ _ _ A (proj1 (Z.add_le_mono_l _ _ 40) B)).
Defined.

(** The module-level [extract_refined_snippet] passes no persona: for a
    [max_length] that is not negative its result has at most [max_length]
    characters, with or without a language model. *)
Theorem snippet_fn_within_budget (nlp : option Oracle)
    (section_text query_vector : str) (max_length : Z) :
  (0 <= max_length)%Z ->
  (zlen (extract_refined_snippet_fn nlp section_text query_vector max_length)
   <= max_length)%Z.
Proof.
  intros K. unfold extract_refined_snippet_fn.
  pose proof (snippet_length_bound nlp section_text query_vector [] K) as B.
  rewrite persona_prefix_empty in B. change (zlen []) with 0%Z in B. lia.
Qed.

Lemma snippet_fn_within_budget_witness :
  (zlen (extract_refined_snippet_fn None Ex.two_sentences Ex.hotel_query 40)
   <= 40)%Z.
Proof.
  apply (@snippet_fn_within_budget None Ex.two_sentences Ex.hotel_query 40).
  discriminate.
Defined.

(** ** The best sentence *)

Lemma without_last (r a b : str) c :
  b <> [] -> r ++ [c] = a ++ b -> r = a ++ removelast b.
Proof.
  intros N E. rewrite <- (removelast_last r c), E. now apply removelast_app.
Qed.

(** Without a language model the first ranked sentence is a candidate of
    greatest overlap with the query, and when it fits with its separator
    within [max_length] the result begins with the persona prefix, this
    sentence and a period. *)
Theorem best_sentence_first (section_text query_vector persona : str)
    (max_length : Z) :
  let sentences := candidate_sentences section_text in
  let key := overlap (word_set query_vector) in
  sentences <> [] ->
  exists top rest,
    rank None persona query_vector sentences = top :: rest /\
    In top sentences /\
    (forall s, In s sentences -> key s <= key top) /\
    ((zlen top + 2 <= max_length)%Z ->
     startswith
       (extract_refined_snippet None section_text query_vector persona
          max_length)
       (persona_prefix_of persona ++ top ++ [dot]) = true).
Proof.
  intros sentences key N.
  pose proof (rank_perm None persona query_vector sentences) as P.
  pose proof (sorted_desc_sorted key sentences) as S.
  change (sorted_desc Nat.ltb key sentences)
    with (rank None persona query_vector sentences) in S.
  destruct (rank None persona query_vector sentences) as [|top rest] eqn:R.
  { apply Permutation_sym, Permutation_nil in P. contradiction. }
  exists top, rest. split; [reflexivity|]. split.
  { eapply Permutation_in; [apply Permutation_sym, P | now left]. }
  split.
  { intros s Hs. apply (Permutation_in _ P) in Hs as [<- | Hs]; [lia|].
    inversion S as [|? ? _ F]; subst. rewrite Forall_forall in F.
    now apply F. }
  intros Fit.
  assert (B : exists more,
             snippet_buffer None section_text query_vector persona max_length
             = top ++ dot :: lit " " ++ more).
  { unfold snippet_buffer. fold sentences. rewrite R. cbn [assemble length].
    change (Z.of_nat 0) with 0%Z. unfold zlen in Fit.
    apply Z.leb_le in Fit. cbn [Z.add]. rewrite Fit.
    destruct (assemble_prefix max_length rest ([] ++ top ++ lit ". "))
      as (j & _ & E & _).
    rewrite E. exists (Spec.joined (firstn j rest)).
    cbn [app]. now rewrite <- app_assoc. }
  destruct B as (more & B).
  assert (NB : snippet_buffer None section_text query_vector persona
                 max_length <> []).
  { rewrite B. destruct top; discriminate. }
  pose proof (snippet_from_buffer_eq None section_text query_vector persona
                max_length NB) as E.
  rewrite B in E.
  assert (E' : extract_refined_snippet None section_text query_vector persona
                 max_length ++ [" "%char]
               = (persona_prefix_of persona ++ top ++ [dot])
                 ++ lit " " ++ more).
  { rewrite <- !app_assoc. exact E. }
  apply without_last in E'; [|discriminate].
  rewrite E'. apply startswith_app.
Qed.

Lemma best_sentence_first_witness :
  startswith
    (extract_refined_snippet None Ex.two_sentences Ex.hotel_query [] 40)
    (lit "Budget hotels near the beach.") = true.
Proof.
  destruct (@best_sentence_first Ex.two_sentences Ex.hotel_query [] 40)
    as (top & rest & R & _ & _ & F); [vm_compute; discriminate|].
  vm_compute in R. injection R as <- <-.
  apply F. vm_compute. discriminate.
Defined.

End SnippetShape.

(** * More about the normalizer, the tokenizer and the classifier *)

Module TokenFacts.
Import StrFacts DetectorFacts CleanFacts SnippetShape.

(** ** The shape of a cleaned text *)

Lemma plain_not_upper c : plain_char c = true -> is_upper c = false.
Proof. by_cases_on_char c. Qed.

Lemma single_spaced_spaces s : forall b,
  single_spaced b s = true ->
  Forall (fun c => isspace c = true -> c = " "%char) s.
Proof.
  induction s as [|c s IH]; intros b; simpl; [constructor|].
  destruct (isspace c) eqn:Hc.
  - intros H. apply andb_prop in H as [H H2]. apply andb_prop in H as [E _].
    apply Ascii.eqb_eq in E. constructor; [intros _; exact E | now apply (IH true)].
  - intros H. constructor; [rewrite Hc; discriminate | now apply (IH false)].
Qed.

Lemma clean_text_plain x : Forall (fun c => plain_char c = true) (clean_text x).
Proof.
  unfold clean_text. apply strip_Forall.
  apply sub_ws_Forall; [reflexivity | apply lowered_plain].
Qed.

Lemma clean_text_single_spaced x : single_spaced false (clean_text x) = true.
Proof.
  unfold clean_text, strip.
  apply rstrip_single_spaced, (lstrip_single_spaced _ false).
  apply sub_ws_single_spaced.
Qed.

(** A cleaned text has no ASCII upper-case letter and no punctuation, and
    its only white space is single spaces between other characters, with
    none at either end. *)
Theorem clean_text_shape (x : str) :
  Forall (fun c => is_upper c = false /\ mem_char c punctuation = false /\
                   (isspace c = true -> c = " "%char)) (clean_text x) /\
  single_spaced false (clean_text x) = true /\
  edge_space (clean_text x) = false.
Proof.
  split; [|split; [apply clean_text_single_spaced|]].
  - pose proof (clean_text_plain x) as P.
    pose proof (single_spaced_spaces _ _ (clean_text_single_spaced x)) as S.
    rewrite Forall_forall in *. intros c Hc. specialize (P c Hc).
    split; [now apply plain_not_upper|]. split; [|now apply S].
    unfold plain_char in P. apply andb_prop in P as [_ P].
    now apply negb_true_iff in P.
  - unfold clean_text. apply strip_edges.
Qed.

(** ** Texts that clean to nothing *)

Lemma lower_char_blank c :
  blank_or_punctuation (lower_char c) = blank_or_punctuation c.
Proof. by_cases_on_char c. Qed.

Lemma sub_ws_all_space s : forall b,
  forallb isspace (sub_ws b s) = forallb isspace s.
Proof.
  induction s as [|c s IH]; intros b; simpl; [reflexivity|].
  destruct (isspace c) eqn:Hc.
  - destruct b; simpl; apply IH.
  - simpl. now rewrite Hc.
Qed.

Lemma deleted_all_space x :
  forallb isspace (delete_punctuation (lower x))
  = forallb blank_or_punctuation x.
Proof.
  unfold delete_punctuation, lower.
  induction x as [|c x IH]; [reflexivity|]. cbn [map filter forallb].
  rewrite <- (lower_char_blank c). unfold blank_or_punctuation at 1.
  destruct (mem_char (lower_char c) punctuation); cbn [negb].
  - rewrite orb_true_r. exact IH.
  - rewrite orb_false_r. cbn [forallb]. now rewrite IH.
Qed.

(** [clean_text] returns the empty string exactly for the texts made of
    white space and punctuation only. *)
Theorem clean_text_empty_iff (x : str) :
  clean_text x = [] <-> forallb blank_or_punctuation x = true.
Proof.
  rewrite <- deleted_all_space, <- (sub_ws_all_space _ false).
  unfold clean_text. split; [apply strip_nil_all | apply strip_all].
Qed.

Lemma clean_text_empty_iff_witness :
  clean_text " ...  !?  " = [] /\
  forallb blank_or_punctuation (lit "--") = true.
Proof.
  split.
  - apply (proj2 (clean_text_empty_iff " ...  !?  ")). reflexivity.
  - apply (proj1 (clean_text_empty_iff "--")). reflexivity.
Defined.

(** ** Tokens without a language model *)

Lemma token_char_plain c :
  plain_char c = true -> isspace c = false -> token_char c = true.
Proof.
  intros P S. unfold token_char. rewrite S, (plain_not_upper _ P).
  unfold plain_char in P. apply andb_prop in P as [_ P]. now rewrite P.
Qed.

Lemma token_char_parts c :
  token_char c = true -> plain_char c = true /\ isspace c = false.
Proof. by_cases_on_char c. Qed.

Lemma forallb_and {A} (p q : A -> bool) l :
  forallb p l = true -> forallb q l = true ->
  forallb (fun x => p x && q x) l = true.
Proof.
  induction l as [|x l IH]; simpl; [reflexivity|]. intros H1 H2.
  apply andb_prop in H1 as [-> H1]. apply andb_prop in H2 as [-> H2].
  now rewrite IH.
Qed.

Lemma forallb_weaken {A} (p q : A -> bool) l :
  (forall x, p x = true -> q x = true) ->
  forallb p l = true -> forallb q l = true.
Proof.
  intros W. induction l as [|x l IH]; simpl; [reflexivity|]. intros H.
  apply andb_prop in H as [Hx H]. now rewrite (W _ Hx), IH.
Qed.

Lemma tokens_of_clean x w :
  In w (split_ws (clean_text x)) ->
  w <> [] /\ forallb token_char w = true.
Proof.
  unfold split_ws. intros H. apply filter_In in H as [Hin L]. split.
  - intros ->. discriminate.
  - assert (P : forallb plain_char (clean_text x) = true).
    { apply forallb_forall. intros c Hc.
      pose proof (clean_text_plain x) as F. rewrite Forall_forall in F.
      now apply F. }
    pose proof (split_on_forallb isspace plain_char _ P) as F1.
    pose proof (split_on_no_separator isspace (clean_text x)) as F2.
    rewrite Forall_forall in F1, F2.
    pose proof (forallb_and _ _ _ (F1 w Hin) (F2 w Hin)) as B.
    revert B. apply forallb_weaken. intros c Hc.
    apply andb_prop in Hc as [Hp Hs]. apply negb_true_iff in Hs.
    now apply token_char_plain.
Qed.

(** Without a language model every token has more than 2 characters, none
    of them white space, an upper-case letter or punctuation. *)
Theorem tokens_shape (text w : str) :
  In w (spacy_tokenize None text) ->
  2 < length w /\ forallb token_char w = true.
Proof.
  unfold spacy_tokenize. intros H. apply filter_In in H as [Hin L].
  apply Nat.ltb_lt in L. split; [exact L|].
  now apply (tokens_of_clean text).
Qed.

Lemma tokens_shape_witness :
  2 < length (lit "world") /\ forallb token_char (lit "world") = true.
Proof.
  apply (tokens_shape "Hello, World! It is" "world").
  vm_compute. right. left. reflexivity.
Defined.

(** ** Joining the tokens and splitting them again *)

Lemma split_on_not_nil p s : split_on p s <> [].
Proof.
  destruct s as [|c s]; simpl; [discriminate|].
  destruct (split_on p s); [discriminate|]. destruct (p c); discriminate.
Qed.

Lemma split_on_word p w :
  forallb (fun c => negb (p c)) w = true -> split_on p w = [w].
Proof.
  induction w as [|c w IH]; simpl; [reflexivity|]. intros H.
  apply andb_prop in H as [Hc Hw]. rewrite (IH Hw).
  apply negb_true_iff in Hc. now rewrite Hc.
Qed.

Lemma split_on_word_sep p w c s :
  forallb (fun c => negb (p c)) w = true -> p c = true ->
  split_on p (w ++ c :: s) = w :: split_on p s.
Proof.
  intros Hw Hc. induction w as [|d w IH]; cbn [app split_on].
  - destruct (split_on p s) as [|v vs] eqn:E;
      [now apply split_on_not_nil in E|]. now rewrite Hc.
  - simpl in Hw. apply andb_prop in Hw as [Hd Hw]. rewrite (IH Hw).
    apply negb_true_iff in Hd. now rewrite Hd.
Qed.

Lemma token_no_space w :
  forallb token_char w = true -> forallb (fun c => negb (isspace c)) w = true.
Proof.
  apply forallb_weaken. intros c Hc. apply token_char_parts in Hc as [_ S].
  now rewrite S.
Qed.

Lemma join_cons2 (sep t u : str) r :
  join sep (t :: u :: r) = t ++ sep ++ join sep (u :: r).
Proof. reflexivity. Qed.

Lemma split_ws_join toks :
  Forall is_token toks -> split_ws (join " " toks) = toks.
Proof.
  unfold split_ws. change (lit " ") with [" "%char].
  induction 1 as [|t toks [Tn Tc] F IH]; [reflexivity|].
  destruct toks as [|u r].
  - cbn [join]. rewrite (split_on_word isspace t (token_no_space _ Tc)).
    cbn [filter]. destruct t; [congruence | reflexivity].
  - rewrite join_cons2. change ([" "%char] ++ ?x) with (" "%char :: x).
    rewrite (split_on_word_sep isspace t " " _ (token_no_space _ Tc) eq_refl).
    cbn [filter]. rewrite IH. destruct t; [congruence | reflexivity].
Qed.

Lemma join_plain toks :
  Forall is_token toks ->
  Forall (fun c => plain_char c = true) (join " " toks).
Proof.
  induction 1 as [|t toks [Tn Tc] F IH]; [constructor|].
  assert (Pt : Forall (fun c => plain_char c = true) t).
  { apply Forall_forall. intros c Hc.
    rewrite forallb_forall in Tc. now apply token_char_parts, Tc. }
  destruct toks as [|u r]; [exact Pt|].
  rewrite join_cons2. apply Forall_app. split; [exact Pt|].
  constructor; [reflexivity | exact IH].
Qed.

Lemma single_spaced_word w s : forall b,
  w <> [] -> forallb token_char w = true ->
  single_spaced b (w ++ s) = single_spaced false s.
Proof.
  induction w as [|c w IH]; intros b N H; [congruence|].
  simpl in H. apply andb_prop in H as [Hc Hw].
  apply token_char_parts in Hc as [_ Hs]. cbn [app single_spaced].
  rewrite Hs. destruct w as [|d w]; [reflexivity|].
  apply IH; [discriminate | exact Hw].
Qed.

Lemma join_single_spaced toks :
  Forall is_token toks -> single_spaced false (join " " toks) = true.
Proof.
  induction 1 as [|t toks [Tn Tc] F IH]; [reflexivity|].
  destruct toks as [|u r].
  - cbn [join]. rewrite <- (app_nil_r t).
    now rewrite (@single_spaced_word t [] false Tn Tc).
  - rewrite join_cons2, (@single_spaced_word t _ false Tn Tc).
    change (single_spaced true (join " " (u :: r)) = true).
    inversion F as [|? ? [Un Uc] _]; subst.
    destruct r as [|v r'].
    + cbn [join] in *. rewrite <- (app_nil_r u).
      now rewrite (@single_spaced_word u [] true Un Uc).
    + rewrite join_cons2 in *.
      rewrite (@single_spaced_word u _ true Un Uc).
      now rewrite (@single_spaced_word u _ false Un Uc) in IH.
Qed.

Lemma word_edges w :
  w <> [] -> forallb token_char w = true ->
  existsb isspace (firstn 1 w) = false /\
  existsb isspace (firstn 1 (rev w)) = false.
Proof.
  intros N H. apply token_no_space in H. split.
  - destruct w as [|c w]; [congruence|]. simpl in *.
    apply andb_prop in H as [Hc _]. apply negb_true_iff in Hc. now rewrite Hc.
  - rewrite <- rev_forallb in H. destruct (rev w) as [|c r]; [reflexivity|].
    simpl in *. apply andb_prop in H as [Hc _]. apply negb_true_iff in Hc.
    now rewrite Hc.
Qed.

Lemma join_edges toks :
  Forall is_token toks -> edge_space (join " " toks) = false.
Proof.
  unfold edge_space. intros F. apply orb_false_intro.
  - destruct F as [|t toks [Tn Tc] F]; [reflexivity|].
    destruct toks as [|u r]; [now apply word_edges|].
    rewrite join_cons2, firstn_1_app by exact Tn. now apply word_edges.
  - induction F as [|t toks [Tn Tc] F IH]; [reflexivity|].
    destruct toks as [|u r]; [now apply word_edges|].
    rewrite join_cons2, !rev_app_distr, <- app_assoc.
    rewrite firstn_1_app; [exact IH|].
    inversion F as [|? ? [Un _] _]; subst. intros E.
    apply (f_equal (@rev _)) in E. rewrite rev_involutive in E. simpl in E.
    destruct r; [congruence|]. destruct u; [congruence | discriminate].
Qed.

Lemma clean_text_join toks :
  Forall is_token toks -> clean_text (join " " toks) = join " " toks.
Proof.
  intros F. destruct (plain_fixed (join_plain F)) as [L D].
  unfold clean_text. rewrite L, D.
  rewrite (single_spaced_fixed _ _ (join_single_spaced F)).
  apply strip_fixed, join_edges, F.
Qed.

Lemma tokens_are_tokens text : Forall is_token (spacy_tokenize None text).
Proof.
  apply Forall_forall. intros w H. unfold spacy_tokenize in H.
  apply filter_In in H as [Hin _]. now apply (tokens_of_clean text).
Qed.

Lemma filter_all {A} (p : A -> bool) l :
  (forall x, In x l -> p x = true) -> filter p l = l.
Proof.
  induction l as [|x l IH]; intros H; [reflexivity|]. simpl.
  rewrite (H x (or_introl eq_refl)). f_equal. apply IH. intros y Hy.
  apply H. now right.
Qed.

(** Without a language model the vector text is a fixed point of the
    pipeline: it is already clean, tokenizing it gives back the tokens it was
    joined from, and preprocessing it again changes nothing. *)
Theorem preprocess_idempotent (text : str) :
  let v := preprocess_for_vector None text in
  clean_text v = v /\
  spacy_tokenize None v = spacy_tokenize None text /\
  preprocess_for_vector None v = v.
Proof.
  intros v. pose proof (tokens_are_tokens text) as F.
  assert (C : clean_text v = v) by (apply clean_text_join, F).
  assert (T : spacy_tokenize None v = spacy_tokenize None text).
  { unfold spacy_tokenize at 1. rewrite C. unfold v, preprocess_for_vector.
    rewrite (split_ws_join F). apply filter_all. intros w Hw.
    unfold spacy_tokenize in Hw. now apply filter_In in Hw as [_ L]. }
  split; [exact C|]. split; [exact T|].
  unfold preprocess_for_vector at 1. now rewrite T.
Qed.

(** ** The classifier *)

Lemma lower_idem s : lower (lower s) = lower s.
Proof.
  unfold lower. rewrite map_map. apply map_ext. apply lower_char_idem.
Qed.

(** The label is one of the eight section types; it does not depend on the
    content, nor on the letter case of the title. *)
Theorem classify_labels (title content content' : str) :
  In (_classify_section_type title content) SECTION_TYPES /\
  _classify_section_type (lower title) content'
  = _classify_section_type title content.
Proof.
  split.
  - unfold _classify_section_type. cbv zeta.
    repeat match goal with
           | |- context [if ?c then _ else _] => destruct c
           end; vm_compute; tauto.
  - unfold _classify_section_type. now rewrite lower_idem.
Qed.

End TokenFacts.

(** * The orchestrator *)

Module ChunkFacts.
Import StrFacts DetectorFacts HeadingFacts TokenFacts.

(** ** Loops that may raise *)

Section ExtendEach.
Variables (A : Type) (step : A -> outcome (list Chunk)).

Lemma extend_each_app xs ys :
  extend_each step (xs ++ ys)
  = and_then (extend_each step xs) (extend_each step ys).
Proof.
  induction xs as [|x xs IH]; cbn [app extend_each and_then].
  - destruct (extend_each step ys); reflexivity.
  - destruct (step x) as [cs|k]; [|reflexivity]. rewrite IH.
    destruct (extend_each step xs) as [a|k]; [|reflexivity].
    cbn [and_then]. destruct (extend_each step ys); [|reflexivity].
    now rewrite app_assoc.
Qed.

Lemma extend_each_In xs chunks c :
  extend_each step xs = Returned chunks -> In c chunks ->
  exists x cs, In x xs /\ step x = Returned cs /\ In c cs.
Proof.
  revert chunks. induction xs as [|x xs IH]; intros chunks; cbn [extend_each].
  - intros E. injection E as <-. contradiction.
  - destruct (step x) as [cs|k] eqn:Sx; [|discriminate].
    destruct (extend_each step xs) as [more|k]; [|discriminate].
    intros E Hc. injection E as <-. apply in_app_or in Hc as [Hc | Hc].
    + exists x, cs. repeat split; [now left | assumption..].
    + destruct (IH more eq_refl Hc) as (y & ds & Hy & Sy & Hd).
      exists y, ds. repeat split; [now right | assumption..].
Qed.

Lemma extend_each_returns xs :
  (forall x, In x xs -> exists cs, step x = Returned cs) <->
  exists chunks, extend_each step xs = Returned chunks.
Proof.
  induction xs as [|x xs IH]; cbn [extend_each].
  - split; [eauto | intros _ x []].
  - split.
    + intros H. destruct (H x (or_introl eq_refl)) as (cs & ->).
      destruct (proj1 IH) as (more & ->); [|eauto].
      intros y Hy. apply H. now right.
    + intros (chunks & E) y [<- | Hy].
      * destruct (step x); [eauto | discriminate].
      * destruct (step x); [|discriminate].
        destruct (extend_each step xs) eqn:R; [|discriminate].
        apply (proj2 IH); eauto.
Qed.

Lemma extend_each_first_error before x after k :
  (forall y, In y before -> exists cs, step y = Returned cs) ->
  step x = KeyError k ->
  extend_each step (before ++ x :: after) = KeyError k.
Proof.
  intros H Sx. rewrite extend_each_app.
  apply extend_each_returns in H as (chunks & ->).
  cbn [and_then extend_each]. now rewrite Sx.
Qed.

Lemma extend_each_error xs k :
  extend_each step xs = KeyError k -> exists x, In x xs /\ step x = KeyError k.
Proof.
  induction xs as [|x xs IH]; cbn [extend_each]; [discriminate|].
  destruct (step x) as [cs|k'] eqn:Sx.
  - destruct (extend_each step xs) as [more|k'']; [discriminate|].
    intros E. injection E as ->. destruct (IH eq_refl) as (y & Hy & Sy).
    exists y. split; [now right | exact Sy].
  - intros E. injection E as ->. exists x. split; [now left | exact Sx].
Qed.
End ExtendEach.

(** ** Missing keys *)

Lemma page_chunks_returns nlp min_len doc_name page :
  has_keys page <-> exists cs, page_chunks nlp min_len doc_name page = Returned cs.
Proof.
  unfold has_keys, page_chunks.
  destruct (page_number page), (p_text page); split;
    try (intros [H1 H2]; congruence); try (intros (cs & E); discriminate);
    eauto; intros _; split; discriminate.
Qed.

Lemma page_chunks_error nlp min_len doc_name page k :
  page_chunks nlp min_len doc_name page = KeyError k ->
  (page_number page = None /\ k = "page_number") \/
  (page_number page <> None /\ p_text page = None /\ k = "text").
Proof.
  unfold page_chunks. destruct (page_number page); [|intros E; left].
  - destruct (p_text page); [discriminate|]. intros E. right.
    injection E as <-. repeat split; discriminate || reflexivity.
  - injection E as <-. now split.
Qed.

(** The run returns a chunk list exactly when every page of every document
    holds both keys; otherwise it raises [KeyError] for "page_number" or
    for "text". *)
Theorem split_documents_returns (nlp : option Oracle) (config : option Z)
    (docs_text : list (str * list Page)) :
  ((forall doc page, In doc docs_text -> In page (snd doc) -> has_keys page)
   <-> exists chunks,
       split_documents_into_sections nlp config docs_text = Returned chunks) /\
  (forall k, split_documents_into_sections nlp config docs_text = KeyError k ->
             k = "page_number" \/ k = "text").
Proof.
  unfold split_documents_into_sections. split.
  - rewrite <- extend_each_returns. split.
    + intros H doc Hd. apply extend_each_returns. intros page Hp.
      apply page_chunks_returns. now apply (H doc).
    + intros H doc page Hd Hp. specialize (H doc Hd).
      pose proof (proj2 (extend_each_returns _ _) H) as H'.
      apply (page_chunks_returns nlp (min_section_length config) (fst doc)).
      now apply H'.
  - intros k E. apply extend_each_error in E as (doc & _ & E).
    apply extend_each_error in E as (page & _ & E).
    apply page_chunks_error in E as [[_ ->] | (_ & _ & ->)]; auto.
Qed.

Lemma split_documents_returns_witness :
  (exists chunks,
      split_documents_into_sections None None Ex.library = Returned chunks) /\
  has_keys Ex.good_page.
Proof.
  destruct (split_documents_returns None None Ex.library) as [[To From] _].
  split.
  - apply To. intros doc page [<- | []] [<- | [<- | []]]; split; discriminate.
  - apply (From (ex_intro _ _ eq_refl) (lit "guide.pdf", [Ex.good_page; Ex.empty_page]));
      now left.
Defined.

(** The first page, in the order of the run, that lacks a key decides the
    error: "page_number" when that key is absent, whether or not "text" is
    there, and "text" when only that one is.  The chunks of the pages before
    it are not returned. *)
Theorem split_documents_first_error (nlp : option Oracle) (config : option Z)
    (before after : list (str * list Page)) (doc_name : str)
    (pages_before pages_after : list Page) (page : Page) :
  (forall doc p, In doc before -> In p (snd doc) -> has_keys p) ->
  (forall p, In p pages_before -> has_keys p) ->
  ~ has_keys page ->
  split_documents_into_sections nlp config
    (before ++ (doc_name, pages_before ++ page :: pages_after) :: after)
  = KeyError (match page_number page with
              | None => "page_number"
              | Some _ => "text"
              end).
Proof.
  intros Hb Hp Hk. unfold split_documents_into_sections.
  apply extend_each_first_error.
  - intros doc Hd. apply extend_each_returns. intros p Hin.
    apply page_chunks_returns. now apply (Hb doc).
  - cbn [fst snd]. apply extend_each_first_error.
    + intros p Hin. apply page_chunks_returns. now apply Hp.
    + unfold page_chunks, has_keys in *.
      destruct (page_number page); [|reflexivity].
      destruct (p_text page); [|reflexivity].
      elim Hk. split; discriminate.
Qed.

Lemma split_documents_first_error_witness :
  split_documents_into_sections None None
    [(lit "guide.pdf", [Ex.good_page; Ex.page_without_text; Ex.empty_page])]
  = KeyError "text".
Proof.
  apply (@split_documents_first_error None None [] [] "guide.pdf"
           [Ex.good_page] [Ex.empty_page] Ex.page_without_text).
  - intros doc p [].
  - intros p [<- | []]. split; discriminate.
  - intros [_ H]. now apply H.
Defined.

(** ** Order *)

(** The run over a concatenated input is the run over the first part and
    then over the second: the chunks come in the order of the documents,
    and an error in the first part hides the second. *)
Theorem split_documents_app (nlp : option Oracle) (config : option Z)
    (docs1 docs2 : list (str * list Page)) :
  split_documents_into_sections nlp config (docs1 ++ docs2)
  = and_then (split_documents_into_sections nlp config docs1)
             (split_documents_into_sections nlp config docs2).
Proof. unfold split_documents_into_sections. apply extend_each_app. Qed.

(** ** The chunks *)

Lemma split_ws_nil s : split_ws s = [] -> forallb isspace s = true.
Proof.
  unfold split_ws. induction s as [|c s IH]; [reflexivity|]. cbn [split_on].
  destruct (split_on isspace s) as [|w ws] eqn:E.
  - now apply TokenFacts.split_on_not_nil in E.
  - destruct (isspace c) eqn:Hc.
    + cbn [filter length Nat.eqb negb]. intros H. simpl. rewrite Hc. now apply IH.
    + cbn [filter length Nat.eqb negb]. discriminate.
Qed.

Lemma page_chunks_In nlp min_len doc_name page cs c :
  page_chunks nlp min_len doc_name page = Returned cs -> In c cs ->
  exists num text t b,
    page_number page = Some num /\ p_text page = Some text /\
    In (t, b) (detect_sections nlp text) /\
    (min_len <= zlen (strip b))%Z /\
    c = make_chunk doc_name num (t, b).
Proof.
  unfold page_chunks.
  destruct (page_number page) as [num|]; [|discriminate].
  destruct (p_text page) as [text|]; [|discriminate].
  intros E Hc. injection E as <-. apply in_map_iff in Hc as ([t b] & <- & Hs).
  apply filter_In in Hs as [Hs L]. apply negb_true_iff, Z.ltb_ge in L.
  exists num, text, t, b. repeat split; assumption || reflexivity.
Qed.

Lemma chunks_well_formed_aux nlp config docs_text chunks c :
  split_documents_into_sections nlp config docs_text = Returned chunks ->
  In c chunks ->
  (exists doc page text,
      In doc docs_text /\ In page (snd doc) /\ document c = fst doc /\
      page_number page = Some (chunk_page c) /\ p_text page = Some text /\
      In (section_title c, section_text c) (detect_sections nlp text)) /\
  _is_usable_title (section_title c) = true /\
  strip (section_text c) = section_text c /\
  (min_section_length config <= Z.of_nat (char_count c))%Z /\
  char_count c = length (section_text c) /\
  1 <= word_count c.
Proof.
  unfold split_documents_into_sections. intros E Hc.
  destruct (extend_each_In _ _ _ E Hc) as (doc & cs & Hd & Ed & Hcs).
  destruct (extend_each_In _ _ _ Ed Hcs) as (page & ps & Hp & Ep & Hps).
  destruct (@page_chunks_In _ _ _ _ _ _ Ep Hps)
    as (num & text & t & b & Pn & Pt & Hs & L & ->).
  cbn [make_chunk document chunk_page section_title section_text char_count
       word_count].
  destruct (@detect_sections_usable _ _ _ _ Hs) as [U _].
  destruct (@detect_sections_bodies_aux _ _ _ _ Hs) as (S & N & _).
  split; [exists doc, page, text; repeat split; assumption|].
  split; [exact U|]. split; [exact S|].
  split; [rewrite S in L; exact L|]. split; [reflexivity|].
  destruct (split_ws b) eqn:W; [|simpl; lia].
  apply split_ws_nil, strip_all in W. congruence.
Qed.

(** Every chunk of a run that returns comes from a section that
    [detect_sections] finds on a page of the input, under the name of its
    document and the number of that page; its title is usable, its text is
    trimmed, [char_count] is the length of the text and is at least the
    configured minimum, and [word_count] is at least 1. *)
Theorem chunks_well_formed (nlp : option Oracle) (config : option Z)
    (docs_text : list (str * list Page)) (chunks : list Chunk) (c : Chunk) :
  split_documents_into_sections nlp config docs_text = Returned chunks ->
  In c chunks ->
  (exists doc page text,
      In doc docs_text /\ In page (snd doc) /\ document c = fst doc /\
      page_number page = Some (chunk_page c) /\ p_text page = Some text /\
      In (section_title c, section_text c) (detect_sections nlp text)) /\
  _is_usable_title (section_title c) = true /\
  strip (section_text c) = section_text c /\
  (min_section_length config <= Z.of_nat (char_count c))%Z /\
  char_count c = length (section_text c) /\
  1 <= word_count c.
Proof. apply chunks_well_formed_aux. Qed.

Lemma chunks_well_formed_witness :
  _is_usable_title "Packing Checklist" = true /\
  (30 <= 40)%Z.
Proof.
  destruct (@chunks_well_formed None None Ex.library
              (map (make_chunk "guide.pdf" 1%Z)
                   (detect_sections None Ex.two_headings_long))
              (make_chunk "guide.pdf" 1%Z
                 (lit "Packing Checklist",
                  lit "Bring sunscreen and a hat for the beach.")))
    as (_ & U & _ & L & _).
  - vm_compute. reflexivity.
  - vm_compute. left. reflexivity.
  - split; [exact U | exact L].
Defined.

(** The module-level function runs with no config: every chunk it returns
    has a usable title and a trimmed text of at least 30 characters. *)
Theorem split_documents_fn_chunks (nlp : option Oracle)
    (docs_text : list (str * list Page)) (chunks : list Chunk) (c : Chunk) :
  split_documents_into_sections_fn nlp docs_text = Returned chunks ->
  In c chunks ->
  _is_usable_title (section_title c) = true /\
  strip (section_text c) = section_text c /\
  30 <= length (section_text c).
Proof.
  unfold split_documents_into_sections_fn. intros E Hc.
  destruct (@chunks_well_formed_aux _ _ _ _ _ E Hc) as (_ & U & S & L & C & _).
  split; [exact U|]. split; [exact S|].
  cbn [min_section_length] in L. lia.
Qed.

Lemma split_documents_fn_chunks_witness :
  30 <= length (lit "Bring sunscreen and a hat for the beach.").
Proof.
  apply (@split_documents_fn_chunks None Ex.library
           (map (make_chunk "guide.pdf" 1%Z)
                (detect_sections None Ex.two_headings_long))
           (make_chunk "guide.pdf" 1%Z
              (lit "Packing Checklist",
               lit "Bring sunscreen and a hat for the beach."))).
  - vm_compute. reflexivity.
  - vm_compute. left. reflexivity.
Defined.

(** ** The length filter *)

Lemma extend_each_ext {A} (f g : A -> outcome (list Chunk)) xs :
  (forall x, In x xs -> f x = g x) -> extend_each f xs = extend_each g xs.
Proof.
  induction xs as [|x xs IH]; intros H; [reflexivity|]. cbn [extend_each].
  rewrite (H x (or_introl eq_refl)), IH; [reflexivity|].
  intros y Hy. apply H. now right.
Qed.

Lemma page_chunks_unfiltered min_len doc_name page :
  (min_len <= 30)%Z ->
  page_chunks None min_len doc_name page
  = match page_number page, p_text page with
    | None, _ => KeyError "page_number"
    | Some _, None => KeyError "text"
    | Some num, Some text =>
        Returned (map (make_chunk doc_name num) (detect_sections None text))
    end.
Proof.
  intros M. unfold page_chunks.
  destruct (page_number page) as [num|]; [|reflexivity].
  destruct (p_text page) as [text|]; [|reflexivity].
  rewrite TokenFacts.filter_all; [reflexivity|].
  intros [t b] Hs. cbn [snd].
  destruct (@detect_sections_bodies_aux _ _ _ _ Hs) as (S & _ & [L | (N & _)]);
    [|congruence].
  apply negb_true_iff, Z.ltb_ge. rewrite S. unfold zlen. lia.
Qed.

(** Without a language model the length filter of the orchestrator drops
    nothing as long as the minimum is at most 30: each page gives one chunk
    per detected section, in order, and the run is the same for every such
    minimum, the default included. *)
Theorem min_length_up_to_30_is_idle (config : option Z)
    (docs_text : list (str * list Page)) :
  (min_section_length config <= 30)%Z ->
  (forall doc_name num text,
      page_chunks None (min_section_length config) doc_name
        {| page_number := Some num; p_text := Some text |}
      = Returned (map (make_chunk doc_name num) (detect_sections None text)))
  /\
  split_documents_into_sections None config docs_text
  = split_documents_into_sections None None docs_text.
Proof.
  intros M. split.
  - intros doc_name num text. now rewrite page_chunks_unfiltered.
  - unfold split_documents_into_sections. apply extend_each_ext.
    intros doc _. apply extend_each_ext. intros page _.
    rewrite !page_chunks_unfiltered; [reflexivity | cbn; lia | exact M].
Qed.

Lemma min_length_up_to_30_is_idle_witness :
  split_documents_into_sections None (Some (-5)%Z) Ex.library
  = split_documents_into_sections None None Ex.library.
Proof.
  apply (proj2 (@min_length_up_to_30_is_idle (Some (-5)%Z) Ex.library
                  ltac:(discriminate))).
Defined.

(** ** Blank pages *)

Lemma detect_sections_blank_aux nlp page_text :
  forallb isspace page_text = true -> detect_sections nlp page_text = [].
Proof.
  intros H.
  assert (P : primary_sections nlp page_text = []).
  { unfold primary_sections.
    rewrite (heading_scan_blank nlp (blank_page_lines _ H)). reflexivity. }
  unfold detect_sections. rewrite P, (strip_all _ H).
  destruct nlp; reflexivity.
Qed.

Lemma extend_each_nil {A} (step : A -> outcome (list Chunk)) xs :
  (forall x, In x xs -> step x = Returned []) ->
  extend_each step xs = Returned [].
Proof.
  induction xs as [|x xs IH]; intros H; [reflexivity|]. cbn [extend_each].
  rewrite (H x (or_introl eq_refl)), IH; [reflexivity|].
  intros y Hy. apply H. now right.
Qed.

(** A run over pages that hold both keys and whose text is blank returns
    the empty chunk list, whatever the config and the language model. *)
Theorem blank_pages_no_chunks (nlp : option Oracle) (config : option Z)
    (docs_text : list (str * list Page)) :
  (forall doc page, In doc docs_text -> In page (snd doc) ->
     page_number page <> None /\
     exists text, p_text page = Some text /\ forallb isspace text = true) ->
  split_documents_into_sections nlp config docs_text = Returned [].
Proof.
  intros H. unfold split_documents_into_sections.
  apply extend_each_nil. intros doc Hd. apply extend_each_nil. intros page Hp.
  destruct (H doc page Hd Hp) as (N & text & T & B).
  unfold page_chunks. destruct (page_number page); [|congruence].
  rewrite T, (@detect_sections_blank_aux nlp _ B). reflexivity.
Qed.

Lemma blank_pages_no_chunks_witness :
  split_documents_into_sections (Some Ex.silent) None
    [(lit "empty.pdf", [Ex.empty_page])] = Returned [].
Proof.
  apply (@blank_pages_no_chunks (Some Ex.silent) None
           [(lit "empty.pdf", [Ex.empty_page])]).
  intros doc page [<- | []] [<- | []]. split; [discriminate|].
  exists Ex.blank_page. split; reflexivity.
Defined.

End ChunkFacts.

(** * Lines that the first header pattern accepts *)

Module PatternFacts.
Import StrFacts SnippetShape.

Lemma rep_then_end p lo hi s :
  (forall c, p c = true -> Ascii.eqb newline c = false) ->
  forallb p s = true -> lo <= length s <= hi ->
  fullmatch (Seq (Rep p lo hi) (Alt Eps (Chr newline))) s = true.
Proof.
  intros Hnl. revert lo hi.
  induction s as [|c s IH]; intros lo hi Hp B; cbn [length] in B.
  - assert (lo = 0) as -> by lia. reflexivity.
  - cbn [forallb] in Hp. apply andb_prop in Hp as [Hc Hs].
    destruct hi as [|hi]; [lia|].
    assert (D : deriv c (Seq (Rep p lo (S hi)) (Alt Eps (Chr newline)))
                = Seq (Rep p (lo - 1) hi) (Alt Eps (Chr newline))).
    { cbn [deriv nullable Chr]. rewrite Hc, (Hnl c Hc). cbn [seq alt].
      destruct (lo =? 0); reflexivity. }
    cbn [fullmatch]. rewrite D. apply IH; [exact Hs | lia].
Qed.

Lemma sentence_char_not_newline c :
  sentence_char c = true -> Ascii.eqb newline c = false.
Proof. by_cases_on_char c. Qed.

Lemma upper_is_sentence_char c : is_upper c = true -> sentence_char c = true.
Proof. by_cases_on_char c. Qed.

Lemma endswith_dot_free s : forallb sentence_char s = true -> endswith s "." = false.
Proof.
  intros H. unfold endswith. rewrite <- rev_forallb in H.
  destruct (rev s) as [|d r]; [reflexivity|]. simpl in H.
  apply andb_prop in H as [Hd _]. revert Hd. clear. by_cases_on_char d.
Qed.

Lemma first_pattern_matches c rest :
  is_upper c = true -> forallb sentence_char rest = true ->
  10 <= length rest <= 100 ->
  existsb (fun pat => re_match pat (c :: rest)) HEADER_PATTERNS = true.
Proof.
  intros U F B. unfold HEADER_PATTERNS. cbn [existsb].
  apply orb_true_intro. left. unfold re_match. cbn [dollar body].
  cbn [fullmatch deriv nullable andb]. rewrite U. cbn [seq alt].
  apply (@rep_then_end sentence_char 10 100 rest);
    [apply sentence_char_not_newline | exact F | exact B].
Qed.

Lemma long_not_member (x : str) (set : list str) n :
  n < length x -> Forall (fun y => length y <= n) set -> mem_str x set = false.
Proof.
  intros L F. destruct (mem_str x set) eqn:M; [|reflexivity].
  apply mem_str_In in M. rewrite Forall_forall in F. specialize (F x M). lia.
Qed.

(** A trimmed line of 11 to 101 characters that starts with an upper-case
    letter and holds no period passes the heading test, unless it is
    "untitled section" in some letter case. *)
Theorem capitalised_line_is_heading (c : ascii) (rest : str) :
  is_upper c = true ->
  forallb sentence_char rest = true ->
  10 <= length rest <= 100 ->
  strip (c :: rest) = c :: rest ->
  lower (c :: rest) <> lit "untitled section" ->
  _is_heading (c :: rest) = true.
Proof.
  intros U F B S P. unfold _is_heading. cbn [nonempty negb]. rewrite S.
  assert (M1 : mem_str (lower (c :: rest))
                 [lit "untitled section"; lit "section"; lit "heading";
                  lit "index"] = false).
  { destruct (mem_str _ _) eqn:M; [|reflexivity].
    apply mem_str_In in M as [E | M]; [congruence|].
    assert (L : 10 < length (lower (c :: rest)))
      by (unfold lower; rewrite length_map; simpl; lia).
    destruct M as [E | [E | [E | []]]]; rewrite <- E in L; simpl in L; lia. }
  assert (M2 : mem_str (c :: rest)
                 [BULLET; BLACK_CIRCLE; lit "-"; lit "*"; lit "."] = false).
  { apply long_not_member with (n := 3); [simpl; lia|].
    repeat constructor; simpl; lia. }
  assert (E : endswith (c :: rest) "." = false).
  { apply endswith_dot_free. cbn [forallb].
    now rewrite (upper_is_sentence_char _ U), F. }
  assert (L : (length (c :: rest) <? 10) = false)
    by (apply Nat.ltb_ge; simpl; lia).
  rewrite M1, M2, E, L, (first_pattern_matches _ _ U F B). reflexivity.
Qed.

Lemma capitalised_line_is_heading_witness :
  _is_heading "Bring sunscreen and a hat" = true.
Proof.
  apply (@capitalised_line_is_heading "B" (lit "ring sunscreen and a hat"));
    try reflexivity; [simpl; lia | discriminate].
Defined.

End PatternFacts.
